(** * Sleeping barber: a model of [barbershop.py] and its synchronisation

    The program runs a barber thread, a customer generator thread, one short
    thread per customer and the curses loop, all sharing one [ShopState]
    guarded by [state.lock], plus two module-level counting semaphores and one
    [threading.Event].

    Every [with state.lock:] block, every semaphore operation and every test
    of the stop event is one atomic action of the thread that performs it.
    The model gives each thread a program counter naming the action it
    performs next, and a scheduler-driven function [step] that runs the
    chosen thread's next action.  A run is a list of scheduler choices, so
    every interleaving of the threads is a run and runs can be evaluated.

    Python [int] is [Z].  Python [float] values (durations and clock
    readings) are modelled as rationals [Q]: the program only stores,
    compares, adds and subtracts them. *)

From Stdlib Require Import ZArith QArith Qround Lqa String List Lia Bool.
From Stdlib Require Import DecimalString DecimalN.
From stdpp Require Import base list.
Import ListNotations.

Local Open Scope Z_scope.

(** ** Shared state: [class ShopState] *)

Record ShopState : Type := mkShopState {
  capacity : Z;
  cut_time : Q;
  arrival_speed : Z;
  waiting : list Z;
  served : Z;
  left : Z;
  barber_status : string;
  current_customer : option Z;
  haircut_start_time : option Q
}.

(** [ShopState.__init__(capacity, cut_time)]. *)
Definition ShopState_init (capacity : Z) (cut_time : Q) : ShopState :=
  {| capacity := capacity;
     cut_time := cut_time;
     arrival_speed := 3;
     waiting := [];
     served := 0;
     left := 0;
     barber_status := "sleeping";
     current_customer := None;
     haircut_start_time := None |}.

(** Field assignments [state.f = v]. *)
Definition set_arrival_speed (v : Z) (s : ShopState) : ShopState :=
  mkShopState (capacity s) (cut_time s) v (waiting s) (served s) (left s)
              (barber_status s) (current_customer s) (haircut_start_time s).

Definition set_waiting (v : list Z) (s : ShopState) : ShopState :=
  mkShopState (capacity s) (cut_time s) (arrival_speed s) v (served s) (left s)
              (barber_status s) (current_customer s) (haircut_start_time s).

Definition set_served (v : Z) (s : ShopState) : ShopState :=
  mkShopState (capacity s) (cut_time s) (arrival_speed s) (waiting s) v (left s)
              (barber_status s) (current_customer s) (haircut_start_time s).

Definition set_left (v : Z) (s : ShopState) : ShopState :=
  mkShopState (capacity s) (cut_time s) (arrival_speed s) (waiting s) (served s) v
              (barber_status s) (current_customer s) (haircut_start_time s).

Definition set_barber_status (v : string) (s : ShopState) : ShopState :=
  mkShopState (capacity s) (cut_time s) (arrival_speed s) (waiting s) (served s)
              (left s) v (current_customer s) (haircut_start_time s).

Definition set_current_customer (v : option Z) (s : ShopState) : ShopState :=
  mkShopState (capacity s) (cut_time s) (arrival_speed s) (waiting s) (served s)
              (left s) (barber_status s) v (haircut_start_time s).

Definition set_haircut_start_time (v : option Q) (s : ShopState) : ShopState :=
  mkShopState (capacity s) (cut_time s) (arrival_speed s) (waiting s) (served s)
              (left s) (barber_status s) (current_customer s) v.

(** Python truthiness of a deque: [if state.waiting]. *)
Definition nonempty (q : list Z) : bool :=
  match q with [] => false | _ :: _ => true end.

(** [len(state.waiting)]. *)
Definition len (q : list Z) : Z := Z.of_nat (length q).

(** ** The locked blocks of [barber_worker] *)

(** Lines 46-48: the arrival semaphore timed out. *)
Definition barber_timeout (s : ShopState) : ShopState :=
  if negb (nonempty (waiting s)) && negb (String.eqb (barber_status s) "cutting")
  then set_barber_status "sleeping" s
  else s.

(** Lines 52-62: move the front customer to the chair.  The result carries
    the state, the dequeued id ([None] on the [continue] branch) and the
    number of units released on [barber_sem] inside the block. *)
Definition barber_pickup (now : Q) (s : ShopState)
  : ShopState * option Z * nat :=
  match waiting s with
  | cid :: rest =>
      (set_haircut_start_time (Some now)
         (set_current_customer (Some cid)
            (set_barber_status "cutting"
               (set_waiting rest s))),
       Some cid, 1%nat)
  | [] => (s, None, 0%nat)
  end.

(** [state.current_customer == cid]. *)
Definition is_current (s : ShopState) (cid : Z) : bool :=
  match current_customer s with
  | Some c => Z.eqb c cid
  | None => false
  end.

(** Lines 72-78: finish the haircut of [cid]. *)
Definition barber_finish (cid : Z) (s : ShopState) : ShopState :=
  if is_current s cid then
    let s1 := set_current_customer None s in
    let s2 := set_haircut_start_time None s1 in
    let s3 := set_served (served s2 + 1) s2 in
    set_barber_status
      (if negb (nonempty (waiting s3)) then "sleeping" else "cutting") s3
  else s.

(** ** The locked block of [customer_worker] *)

(** Lines 87-93: the result is the state and the local [admitted]. *)
Definition customer_enter (cid : Z) (s : ShopState) : ShopState * bool :=
  if len (waiting s) <? capacity s
  then (set_waiting (waiting s ++ [cid]) s, true)
  else (set_left (left s + 1) s, false).

(** ** The generator's table *)

(** [speed_to_interval = {1: 2.0, 2: 1.0, 3: 0.6, 4: 0.4, 5: 0.25}], as an
    association list in the order of the literal. *)
Definition speed_to_interval : list (Z * Q) :=
  [(1, (2 # 1)%Q); (2, (1 # 1)%Q); (3, (3 # 5)%Q); (4, (2 # 5)%Q);
   (5, (1 # 4)%Q)].

(** [d.get(k, default)]. *)
Fixpoint dict_get (d : list (Z * Q)) (k : Z) (default : Q) : Q :=
  match d with
  | [] => default
  | (k', v) :: d' => if Z.eqb k' k then v else dict_get d' k default
  end.

(** Lines 117-119: [interval] for the current speed. *)
Definition interval_of (s : ShopState) : Q :=
  dict_get speed_to_interval (arrival_speed s) (3 # 5)%Q.

(** [x < y] on floats as a boolean. *)
Definition Qlt_bool (x y : Q) : bool := negb (Qle_bool y x).

(** ** Threads *)

(** Where the barber thread stands in [barber_worker]. *)
Inductive barber_pc : Type :=
| BLoop                          (* line 41: [while not stop_event.is_set()] *)
| BAcquire                       (* line 43: [customers_sem.acquire(timeout=0.1)] *)
| BTimeout                       (* lines 44-49: not acquired *)
| BPickup                        (* lines 52-62: acquired *)
| BCut (cid : Z) (remaining : Q) (* lines 67-69: the slicing loop *)
| BFinish (cid : Z)              (* lines 72-78 *)
| BExit.                         (* line 80 *)

(** Where a customer thread stands in [customer_worker]. *)
Inductive customer_pc : Type :=
| CEnter      (* lines 87-93 *)
| CNotify     (* line 99: [customers_sem.release()] *)
| CWait       (* line 102: [while not stop_event.is_set()] *)
| CAcquire    (* line 103: [barber_sem.acquire(timeout=0.1)] *)
| CDone.      (* returned *)

Record CustomerThread : Type := mkCustomerThread {
  cid : Z;
  cpc : customer_pc
}.

(** Where the generator thread stands in [generator_worker]. *)
Inductive generator_pc : Type :=
| GInit                  (* lines 111-115 *)
| GLoop                  (* line 116: [while not stop_event.is_set()] *)
| GRead                  (* lines 117-119 *)
| GPace (interval : Q)   (* lines 121-130 *)
| GExit.

Record GeneratorThread : Type := mkGeneratorThread {
  gpc : generator_pc;
  counter : Z;        (* the next value of [itertools.count(1)] *)
  next_emit : Q
}.

(** The whole program: the shared object, the two module-level semaphores,
    the stop event and the threads.  Customer threads are kept in the order
    in which the generator started them. *)
Record Config : Type := mkConfig {
  shop : ShopState;
  customers_sem : nat;
  barber_sem : nat;
  stop_event : bool;
  barber : barber_pc;
  generator : GeneratorThread;
  ui_running : bool;
  threads : list CustomerThread
}.

Definition set_shop (v : ShopState) (c : Config) : Config :=
  mkConfig v (customers_sem c) (barber_sem c) (stop_event c) (barber c)
           (generator c) (ui_running c) (threads c).

Definition set_customers_sem (v : nat) (c : Config) : Config :=
  mkConfig (shop c) v (barber_sem c) (stop_event c) (barber c)
           (generator c) (ui_running c) (threads c).

Definition set_barber_sem (v : nat) (c : Config) : Config :=
  mkConfig (shop c) (customers_sem c) v (stop_event c) (barber c)
           (generator c) (ui_running c) (threads c).

Definition set_stop_event (v : bool) (c : Config) : Config :=
  mkConfig (shop c) (customers_sem c) (barber_sem c) v (barber c)
           (generator c) (ui_running c) (threads c).

Definition set_barber (v : barber_pc) (c : Config) : Config :=
  mkConfig (shop c) (customers_sem c) (barber_sem c) (stop_event c) v
           (generator c) (ui_running c) (threads c).

Definition set_generator (v : GeneratorThread) (c : Config) : Config :=
  mkConfig (shop c) (customers_sem c) (barber_sem c) (stop_event c) (barber c)
           v (ui_running c) (threads c).

Definition set_ui_running (v : bool) (c : Config) : Config :=
  mkConfig (shop c) (customers_sem c) (barber_sem c) (stop_event c) (barber c)
           (generator c) v (threads c).

Definition set_threads (v : list CustomerThread) (c : Config) : Config :=
  mkConfig (shop c) (customers_sem c) (barber_sem c) (stop_event c) (barber c)
           (generator c) (ui_running c) v.

(** [run_curses(state)] up to the start of the curses loop: both semaphores
    at 0, the event clear, the barber and generator threads started. *)
Definition run_curses_init (s : ShopState) : Config :=
  {| shop := s;
     customers_sem := 0;
     barber_sem := 0;
     stop_event := false;
     barber := BLoop;
     generator := mkGeneratorThread GInit 1 0;
     ui_running := true;
     threads := [] |}.

(** [main()]: five chairs, 1.6 s per haircut. *)
Definition main_init : Config := run_curses_init (ShopState_init 5 (8 # 5)).

(** ** Atomic actions *)

(** What the scheduler chooses: a thread, and for the two threads that read
    the clock the value [time.monotonic()] returns; for the curses loop the
    key [stdscr.getch()] returns. *)
Inductive action : Type :=
| ActBarber (now : Q)
| ActCustomer (i : nat)
| ActGenerator (now : Q)
| ActKey (ch : Z).

(** What an action did, for the properties that speak about the order of
    admissions and services. *)
Inductive event : Type :=
| EvTau
| EvSpawn (cid : Z)      (* generator started the thread of [cid] *)
| EvAdmit (cid : Z)      (* line 89 *)
| EvReject (cid : Z)     (* line 92 *)
| EvNotify (cid : Z)     (* line 99 *)
| EvDequeue (cid : Z)    (* lines 54-59 *)
| EvServed (cid : Z).    (* lines 74-78 *)

(** [barber_worker], one action at a time.  [acquire(timeout=0.1)] takes a
    unit if the semaphore has one and returns [False] only if it has none
    when the wait runs out; the time spent blocked is time in which the
    scheduler runs other threads.  [remaining = state.cut_time] (line 65) is
    read together with the pickup: [cut_time] is never assigned after
    construction.  [step = 0.05] is [1 # 20]. *)
Definition barber_step (now : Q) (c : Config) : option (event * Config) :=
  match barber c with
  | BLoop =>
      Some (EvTau, set_barber (if stop_event c then BExit else BAcquire) c)
  | BAcquire =>
      match customers_sem c with
      | S n => Some (EvTau, set_barber BPickup (set_customers_sem n c))
      | O => Some (EvTau, set_barber BTimeout c)
      end
  | BTimeout =>
      Some (EvTau, set_barber BLoop (set_shop (barber_timeout (shop c)) c))
  | BPickup =>
      let '(s', got, released) := barber_pickup now (shop c) in
      let c' := set_barber_sem (barber_sem c + released)%nat (set_shop s' c) in
      match got with
      | Some cid => Some (EvDequeue cid, set_barber (BCut cid (cut_time s')) c')
      | None => Some (EvTau, set_barber BLoop c')
      end
  | BCut cid remaining =>
      if Qlt_bool 0 remaining && negb (stop_event c)
      then Some (EvTau, set_barber (BCut cid (remaining - (1 # 20))%Q) c)
      else Some (EvTau, set_barber (BFinish cid) c)
  | BFinish cid =>
      Some (if is_current (shop c) cid then EvServed cid else EvTau,
            set_barber BLoop (set_shop (barber_finish cid (shop c)) c))
  | BExit => None
  end.

(** [customer_worker] of the [i]-th thread started, one action at a time. *)
Definition customer_step (i : nat) (c : Config) : option (event * Config) :=
  match threads c !! i with
  | None => None
  | Some th =>
      let goto pc c' :=
        set_threads (<[i := mkCustomerThread (cid th) pc]> (threads c')) c' in
      match cpc th with
      | CEnter =>
          let '(s', admitted) := customer_enter (cid th) (shop c) in
          if admitted
          then Some (EvAdmit (cid th), goto CNotify (set_shop s' c))
          else Some (EvReject (cid th), goto CDone (set_shop s' c))
      | CNotify =>
          Some (EvNotify (cid th),
                goto CWait (set_customers_sem (S (customers_sem c)) c))
      | CWait =>
          Some (EvTau, goto (if stop_event c then CDone else CAcquire) c)
      | CAcquire =>
          match barber_sem c with
          | S n => Some (EvTau, goto CDone (set_barber_sem n c))
          | O => Some (EvTau, goto CWait c)
          end
      | CDone => None
      end
  end.

(** [generator_worker], one action at a time; [t.start()] adds the new
    customer thread at its first action. *)
Definition generator_step (now : Q) (c : Config) : option (event * Config) :=
  let g := generator c in
  match gpc g with
  | GInit =>
      Some (EvTau, set_generator (mkGeneratorThread GLoop 1 now) c)
  | GLoop =>
      Some (EvTau,
            set_generator
              (mkGeneratorThread (if stop_event c then GExit else GRead)
                                 (counter g) (next_emit g)) c)
  | GRead =>
      Some (EvTau,
            set_generator
              (mkGeneratorThread (GPace (interval_of (shop c)))
                                 (counter g) (next_emit g)) c)
  | GPace interval =>
      if Qlt_bool now (next_emit g)
      then Some (EvTau,
                 set_generator
                   (mkGeneratorThread GLoop (counter g) (next_emit g)) c)
      else Some (EvSpawn (counter g),
                 set_generator
                   (mkGeneratorThread GLoop (counter g + 1)
                                      (now + interval)%Q)
                   (set_threads
                      (threads c ++ [mkCustomerThread (counter g) CEnter]) c))
  | GExit => None
  end.

(** The curses loop of [run_curses]: [q]/[Q] leaves the loop and sets the
    stop event, [1]..[5] set the speed under the lock, other keys do nothing;
    [draw_ui] only reads. *)
Definition key_step (ch : Z) (c : Config) : option (event * Config) :=
  if ui_running c then
    if (ch =? 113) || (ch =? 81)
    then Some (EvTau, set_ui_running false (set_stop_event true c))
    else if (49 <=? ch) && (ch <=? 53)
    then Some (EvTau, set_shop (set_arrival_speed (ch - 48) (shop c)) c)
    else Some (EvTau, c)
  else None.

Definition step (a : action) (c : Config) : option (event * Config) :=
  match a with
  | ActBarber now => barber_step now c
  | ActCustomer i => customer_step i c
  | ActGenerator now => generator_step now c
  | ActKey ch => key_step ch c
  end.

(** A run under a schedule: the events in order and the final configuration;
    [None] when the schedule picks a thread that has finished or does not
    exist. *)
Fixpoint run (acts : list action) (c : Config) : option (list event * Config) :=
  match acts with
  | [] => Some ([], c)
  | a :: acts' =>
      match step a c with
      | None => None
      | Some (e, c') =>
          match run acts' c' with
          | None => None
          | Some (evs, c'') => Some (e :: evs, c'')
          end
      end
  end.

(** [main()] with other constructor arguments. *)
Definition shop_init (capacity : Z) (cut_time : Q) : Config :=
  run_curses_init (ShopState_init capacity cut_time).

(** Configurations the program can be in. *)
Definition reachable (capacity : Z) (cut_time : Q) (c : Config) : Prop :=
  exists acts evs, run acts (shop_init capacity cut_time) = Some (evs, c).

(** The configuration and the events a schedule leads to. *)
Definition final (acts : list action) (c : Config) : Config :=
  match run acts c with Some (_, c') => c' | None => c end.

Definition trace (acts : list action) (c : Config) : list event :=
  match run acts c with Some (evs, _) => evs | None => [] end.

(** ** Example schedules *)

(** One round of the generator loop: lines 116, 117-119 and 121-130. *)
Definition generator_round (now : Q) : list action :=
  [ActGenerator now; ActGenerator now; ActGenerator now].

(** The generator starts and spawns customers 1 and 2, one second apart. *)
Definition sched_spawn_two : list action :=
  ActGenerator 0 :: generator_round 0 ++ generator_round 1.

(** Both customers enter and announce themselves. *)
Definition sched_two_arrivals : list action :=
  sched_spawn_two ++
  [ActCustomer 0; ActCustomer 0; ActCustomer 1; ActCustomer 1]%nat.

(** The barber then takes customer 1 ... *)
Definition sched_first_pickup : list action :=
  sched_two_arrivals ++ [ActBarber 1; ActBarber 1; ActBarber 1].

(** ... cuts for the 32 slices of 1.6 s and completes the haircut while
    customer 2 is still in the queue ... *)
Definition sched_first_haircut : list action :=
  sched_first_pickup ++ repeat (ActBarber 2) 33 ++ [ActBarber 3].

(** [q] is pressed while customer 1 is in the chair. *)
Definition sched_shutdown_mid_cut : list action :=
  sched_first_pickup ++ [ActKey 113].

(** [q] is pressed when the barber has just passed its loop test (line 41)
    and both customers are in the queue. *)
Definition sched_shutdown_after_loop_test : list action :=
  sched_two_arrivals ++ [ActBarber 1; ActKey 113].

(** ... and, without a shutdown, goes round its loop once more to take
    customer 2. *)
Definition sched_second_pickup : list action :=
  sched_first_haircut ++ [ActBarber 3; ActBarber 3; ActBarber 3].

(** One customer is admitted and announces itself; then [q] is pressed and
    every thread observes the stop event at its next test. *)
Definition sched_shutdown_while_waiting : list action :=
  ActGenerator 0 :: generator_round 0 ++
  [ActCustomer 0; ActCustomer 0; ActKey 113; ActCustomer 0; ActBarber 1;
   ActGenerator 1]%nat.

(** Two customers for a single chair; the second one started enters first. *)
Definition sched_one_chair : list action :=
  sched_spawn_two ++ [ActCustomer 1; ActCustomer 0]%nat.

(** Customer 1 enters, then customer 2. *)
Definition sched_first_enters : list action :=
  sched_spawn_two ++ [ActCustomer 0]%nat.

Definition sched_second_enters : list action :=
  sched_first_enters ++ [ActCustomer 1]%nat.

(** A shop with a single chair. *)
Definition one_chair : Config := shop_init 1 (8 # 5).

(** ** Reading a run *)

Definition admitted_of (e : event) : option Z :=
  match e with EvAdmit x => Some x | _ => None end.

Definition rejected_of (e : event) : option Z :=
  match e with EvReject x => Some x | _ => None end.

Definition dequeued_of (e : event) : option Z :=
  match e with EvDequeue x => Some x | _ => None end.

Definition notified_of (e : event) : option Z :=
  match e with EvNotify x => Some x | _ => None end.

(** The ids admitted, rejected, dequeued and announced on [customers_sem]
    during a run, each in the order it happened. *)
Definition admits (evs : list event) : list Z := omap admitted_of evs.
Definition rejects (evs : list event) : list Z := omap rejected_of evs.
Definition dequeues (evs : list event) : list Z := omap dequeued_of evs.
Definition notifies (evs : list event) : list Z := omap notified_of evs.

(** A customer thread has taken its admission decision once it is past the
    locked block of lines 87-93. *)
Definition has_decided (th : CustomerThread) : bool :=
  match cpc th with CEnter => false | _ => true end.

(** A customer thread that has appended its id and has not yet released
    [customers_sem]. *)
Definition announcing (th : CustomerThread) : bool :=
  match cpc th with CNotify => true | _ => false end.

(** How many threads satisfy [p]. *)
Fixpoint count_threads (p : CustomerThread -> bool) (l : list CustomerThread)
  : Z :=
  match l with
  | [] => 0
  | th :: l' => (if p th then 1 else 0) + count_threads p l'
  end.

Definition decided (l : list CustomerThread) : Z :=
  count_threads has_decided l.

Definition pending (l : list CustomerThread) : Z :=
  count_threads announcing l.

(** Customers the generator has started so far. *)
Definition spawned (c : Config) : Z := Z.of_nat (length (threads c)).

(** 1 while somebody sits in the barber chair. *)
Definition in_chair (s : ShopState) : Z :=
  match current_customer s with Some _ => 1 | None => 0 end.

Definition customer_finished (th : CustomerThread) : bool :=
  match cpc th with CDone => true | _ => false end.

(** Every thread of the program has returned. *)
Definition all_returned (c : Config) : bool :=
  match barber c, gpc (generator c) with
  | BExit, GExit => negb (ui_running c) && forallb customer_finished (threads c)
  | _, _ => false
  end.

(** ** Invariants of the reachable configurations *)

(** The barber's local [cid] is the customer in the chair exactly between the
    pickup and the completion block. *)
Definition barber_holds (c : Config) : Prop :=
  match barber c with
  | BCut x _ | BFinish x => current_customer (shop c) = Some x
  | _ => current_customer (shop c) = None
  end.

Definition chair_implies_cutting (s : ShopState) : Prop :=
  current_customer s <> None -> barber_status s = "cutting"%string.

(** Ids are handed out by [itertools.count(1)] in spawn order. *)
Definition ids_in_order (c : Config) : Prop :=
  (forall i th, threads c !! i = Some th -> cid th = Z.of_nat i + 1) /\
  (gpc (generator c) = GInit -> threads c = []) /\
  (gpc (generator c) <> GInit ->
     counter (generator c) = Z.of_nat (length (threads c)) + 1).

Definition state_inv (c : Config) : Prop :=
  barber_holds c /\
  chair_implies_cutting (shop c) /\
  ids_in_order c /\
  served (shop c) + left (shop c) + len (waiting (shop c)) + in_chair (shop c)
    = decided (threads c) /\
  (barber_status (shop c) = "sleeping"%string \/
   barber_status (shop c) = "cutting"%string).

(** How the events of a run relate to the configuration it ends in. *)
Definition trace_inv (evs : list event) (c : Config) : Prop :=
  admits evs = dequeues evs ++ waiting (shop c) /\
  NoDup (admits evs) /\
  NoDup (rejects evs) /\
  (forall x, x ∈ admits evs -> x ∉ rejects evs) /\
  (forall x, x ∈ admits evs \/ x ∈ rejects evs ->
     exists i th,
       threads c !! i = Some th /\ cid th = x /\ has_decided th = true) /\
  (forall i th, threads c !! i = Some th -> cpc th = CNotify ->
                cid th ∈ admits evs) /\
  (forall x, x ∈ notifies evs -> x ∈ admits evs) /\
  len (rejects evs) = left (shop c) /\
  decided (threads c) = len (admits evs) + len (rejects evs).

(** The constructor arguments never change, and the queue fits the room. *)
Definition config_inv (cap : Z) (ct : Q) (c : Config) : Prop :=
  capacity (shop c) = cap /\ cut_time (shop c) = ct /\
  len (waiting (shop c)) <= cap.

(** The arrival semaphore counts the queued customers that have announced
    themselves and that the barber has not yet reserved: every customer in
    the queue is either still about to release the semaphore, or is a unit
    of the semaphore, or is the one the barber has acquired and is about to
    dequeue. *)
Definition sem_inv (c : Config) : Prop :=
  Z.of_nat (customers_sem c)
  + (match barber c with BPickup => 1 | _ => 0 end)
  + pending (threads c)
  = len (waiting (shop c)).

(** What holds as long as the barber has not dequeued anybody. *)
Definition paused_inv (c : Config) : Prop :=
  served (shop c) = 0 /\
  current_customer (shop c) = None /\
  (0 < left (shop c) -> len (waiting (shop c)) = capacity (shop c)).

(** ** Further invariants and measures *)

(** The speed is one of the five keys, and an interval the generator holds
    was looked up in the table. *)
Definition speed_inv (c : Config) : Prop :=
  1 <= arrival_speed (shop c) <= 5 /\
  match gpc (generator c) with
  | GPace interval => exists k, (k, interval) ∈ speed_to_interval
  | _ => True
  end.

(** The curses loop runs exactly as long as the stop event is clear. *)
Definition ui_inv (c : Config) : Prop := ui_running c = negb (stop_event c).

(** [haircut_start_time] is set together with [current_customer]. *)
Definition chair_clock_inv (s : ShopState) : Prop :=
  current_customer s = None <-> haircut_start_time s = None.

Definition display_inv (c : Config) : Prop :=
  speed_inv c /\ ui_inv c /\ chair_clock_inv (shop c).

Definition spawned_of (e : event) : option Z :=
  match e with EvSpawn x => Some x | _ => None end.

Definition served_of (e : event) : option Z :=
  match e with EvServed x => Some x | _ => None end.

(** The ids of the threads started and of the haircuts completed in a run. *)
Definition spawns (evs : list event) : list Z := omap spawned_of evs.
Definition completions (evs : list event) : list Z := omap served_of evs.

(** Customer threads that have returned. *)
Definition returned (l : list CustomerThread) : Z :=
  count_threads customer_finished l.

Definition handshake_inv (evs : list event) (c : Config) : Prop :=
  spawns evs = map cid (threads c) /\
  (forall x, current_customer (shop c) = Some x -> x ∈ dequeues evs) /\
  served (shop c) = len (completions evs) /\
  len (dequeues evs) + len (rejects evs)
    <= returned (threads c) + Z.of_nat (barber_sem c) /\
  (stop_event c = false ->
   returned (threads c) + Z.of_nat (barber_sem c)
     = len (dequeues evs) + len (rejects evs)).

(** How many of its own actions a thread has left, at most, once the stop
    event is set. *)
Definition barber_rank (pc : barber_pc) : nat :=
  match pc with
  | BExit => 0
  | BLoop => 1
  | BTimeout | BFinish _ => 2
  | BCut _ _ => 3
  | BPickup => 4
  | BAcquire => 5
  end.

Definition customer_rank (pc : customer_pc) : nat :=
  match pc with
  | CDone => 0
  | CWait => 1
  | CAcquire | CNotify => 2
  | CEnter => 3
  end.


(** The rank of the [i]-th customer thread, started or not. *)
Definition customer_rank_at (c : Config) (i : nat) : nat :=
  match threads c !! i with
  | Some th => customer_rank (cpc th)
  | None => 3
  end.

(** Customers the barber can still dequeue, and threads the generator can
    still start, once the stop event is set. *)
Definition dequeue_budget (pc : barber_pc) : nat :=
  match pc with BAcquire | BPickup => 1 | _ => 0 end.


Definition is_barber_action (a : action) : bool :=
  match a with ActBarber _ => true | _ => false end.


Definition is_customer_action (i : nat) (a : action) : bool :=
  match a with ActCustomer j => Nat.eqb i j | _ => false end.

Definition count_actions (p : action -> bool) (acts : list action) : nat :=
  length (List.filter p acts).

(** ** [draw_ui] *)

(** [max(a, b)] and [min(a, b)] on floats: the first argument unless the
    second is strictly larger (smaller). *)
Definition py_max (a b : Q) : Q := if Qlt_bool a b then b else a.
Definition py_min (a b : Q) : Q := if Qlt_bool b a then b else a.

(** [int(x)] on a float: truncation towards zero. *)
Definition py_int (x : Q) : Z := if Qle_bool 0 x then Qfloor x else Qceiling x.

(** [s * n] on strings; empty when [n <= 0]. *)
Fixpoint str_times (s : string) (n : nat) : string :=
  match n with
  | O => EmptyString
  | S n' => String.append s (str_times s n')
  end.

Definition str_mul (s : string) (n : Z) : string := str_times s (Z.to_nat n).

(** The decimal digits of a natural number. *)
Definition decimal (n : N) : string := NilZero.string_of_uint (N.to_uint n).

(** [format(z, "0<width>d")] when [zero_fill], [format(z, "<width>d")]
    otherwise: the sign, the digits, and on their left zeros after the sign
    or spaces before it, up to [width] characters. *)
Definition fmt_d (zero_fill : bool) (width : nat) (z : Z) : string :=
  let sign := if z <? 0 then "-"%string else EmptyString in
  let ds := decimal (Z.abs_N z) in
  let pad := (width - String.length sign - String.length ds)%nat in
  if zero_fill
  then String.append sign (String.append (str_times "0" pad) ds)
  else String.append (str_times " " pad) (String.append sign ds).

(** Lines 158-159: [prog]. *)
Definition progress (now cut_start cut_time : Q) : Q :=
  let elapsed := py_max 0 (now - cut_start) in
  py_min 1 (elapsed / py_max (1 # 1000) cut_time).

(** Lines 160-162: [bar], with [bar_w = 24]. *)
Definition progress_bar (prog : Q) : string :=
  let filled := py_int (prog * 24) in
  String.append (str_mul "#" filled) (str_mul "-" (24 - filled)).

(** Lines 157-165: the line about the barber. *)
Definition barber_line (now : Q) (s : ShopState) : string :=
  match String.eqb (barber_status s) "cutting",
        current_customer s, haircut_start_time s with
  | true, Some current, Some cut_start =>
      let prog := progress now cut_start (cut_time s) in
      String.append "Barber: Cutting C"
        (String.append (fmt_d true 3 current)
           (String.append "  ["
              (String.append (progress_bar prog)
                 (String.append "] "
                    (String.append (fmt_d false 3 (py_int (prog * 100)))
                       "%")))))
  | _, _, _ => "Barber: Zzz (sleeping)"%string
  end.

(** Lines 174-175 and 177: one chair. *)
Definition chair_cell (x : Z) : string :=
  String.append "[" (String.append (fmt_d true 2 x) "]").

Definition empty_chair : string := "[  ]".

(** Lines 171-177: [chairs_line]. *)
Definition chairs_line (capacity : Z) (waiting_list : list Z) : list string :=
  map (fun i : nat =>
         if (i <? length waiting_list)%nat
         then chair_cell (nth i waiting_list 0)
         else empty_chair)
      (seq 0 (Z.to_nat capacity)).

(** Line 153: the statistics. *)
Definition stats_line (s : ShopState) : string :=
  String.concat ""
    ["Chairs: "; fmt_d false 0 (capacity s); "  |  Speed: ";
     fmt_d false 0 (arrival_speed s); "  |  Served: ";
     fmt_d false 0 (served s); "  |  Left: "; fmt_d false 0 (left s)]%string.

(** What [draw_ui] writes from the snapshot of the state, as row, column
    and text of each [addstr]; the two constant title lines of rows 0 and 1
    are left out. *)
Definition draw_ui (now : Q) (s : ShopState) : list (Z * Z * string) :=
  [(3, 2, stats_line s);
   (5, 2, barber_line now s);
   (7, 2, "Waiting chairs:"%string);
   (8, 4, String.concat " " (chairs_line (capacity s) (waiting s)));
   (10, 2, "Legend: [NN]=customer id in queue; empty chair=[  ]"%string)].

(** Case analysis on a decimal number, digit by digit. *)
Ltac split_digit d :=
  destruct d as [|d|d|d|d|d|d|d|d|d|d].

(** Case analysis on one step of the program: split on the innermost
    scrutinee first, so that every case computes. *)
Ltac break_step H :=
  repeat match type of H with
    | context [match ?x with _ => _ end] =>
        lazymatch x with
        | context [match _ with _ => _ end] => fail
        | context [if _ then _ else _] => fail
        | _ => destruct x eqn:?; simpl in H
        end
    | context [if ?x then _ else _] =>
        lazymatch x with
        | context [match _ with _ => _ end] => fail
        | context [if _ then _ else _] => fail
        | _ => destruct x eqn:?; simpl in H
        end
    end;
  try discriminate H;
  try (injection H as <- <-).

Ltac unfold_shop :=
  unfold in_chair, is_current, set_haircut_start_time, set_current_customer,
    set_barber_status, set_served, set_left, set_waiting, set_arrival_speed,
    set_shop, set_customers_sem, set_barber_sem, set_stop_event, set_barber,
    set_generator, set_ui_running, set_threads in *;
  simpl in *.

Ltac finish_case :=
  subst; unfold len in *; simpl in *;
  repeat match goal with
    | H : (_ =? _) = false |- _ => apply Z.eqb_neq in H
    | H : (_ =? _) = true |- _ => apply Z.eqb_eq in H
    | H : (_ <? _) = false |- _ => apply Z.ltb_ge in H
    | H : (_ <? _) = true |- _ => apply Z.ltb_lt in H
    | H : Some _ = Some _ |- _ => injection H as H
    end;
  subst; repeat split; auto; try congruence; try lia.

(** * Runs *)

Lemma run_app (a1 a2 : list action) (c : Config) :
  run (a1 ++ a2) c =
  match run a1 c with
  | None => None
  | Some (e1, c1) =>
      match run a2 c1 with
      | None => None
      | Some (e2, c2) => Some (e1 ++ e2, c2)
      end
  end.
Proof.
  revert c. induction a1 as [|a a1 IH]; intros c; simpl.
  - destruct (run a2 c) as [[e2 c2]|]; reflexivity.
  - destruct (step a c) as [[e c1]|]; [|reflexivity].
    rewrite IH. destruct (run a1 c1) as [[e1 c1']|]; [|reflexivity].
    destruct (run a2 c1') as [[e2 c2]|]; reflexivity.
Qed.

Lemma run_snoc (acts : list action) (a : action) (c c' : Config)
      (evs : list event) :
  run (acts ++ [a]) c = Some (evs, c') ->
  exists evs0 c0 e,
    run acts c = Some (evs0, c0) /\ step a c0 = Some (e, c') /\
    evs = evs0 ++ [e].
Proof.
  rewrite run_app. destruct (run acts c) as [[e1 c1]|]; [|discriminate].
  simpl. destruct (step a c1) as [[e c2]|] eqn:Hs; [|discriminate].
  intros H. injection H as <- <-. exists e1, c1, e. auto.
Qed.

(** Induction along a run, from its start. *)
Lemma run_ind (P : list event -> Config -> Prop) (c0 : Config) :
  P [] c0 ->
  (forall evs c a e c',
      P evs c -> step a c = Some (e, c') -> P (evs ++ [e]) c') ->
  forall acts evs c, run acts c0 = Some (evs, c) -> P evs c.
Proof.
  intros Hbase Hstep acts.
  induction acts as [|a acts IH] using rev_ind; intros evs c Hrun.
  - simpl in Hrun. injection Hrun as <- <-. exact Hbase.
  - apply run_snoc in Hrun as (evs0 & c1 & e & Hrun & Hs & ->).
    eapply Hstep; eauto.
Qed.

(** * Counting the customers that have decided *)

Section Counting.
Variable p : CustomerThread -> bool.

Lemma count_threads_app (l k : list CustomerThread) :
  count_threads p (l ++ k) = count_threads p l + count_threads p k.
Proof. induction l as [|th l IH]; simpl; lia. Qed.

Lemma count_threads_insert (l : list CustomerThread) (i : nat)
      (th th' : CustomerThread) :
  l !! i = Some th ->
  count_threads p (<[i := th']> l) =
  count_threads p l - (if p th then 1 else 0) + (if p th' then 1 else 0).
Proof.
  revert i. induction l as [|x l IH]; intros [|i] H; simpl in *;
    try discriminate.
  - injection H as ->. lia.
  - rewrite (IH i H). lia.
Qed.

Lemma count_threads_bounds (l : list CustomerThread) :
  0 <= count_threads p l <= Z.of_nat (length l).
Proof.
  induction l as [|th l IH]; simpl; [lia|].
  destruct (p th); lia.
Qed.
End Counting.

Lemma decided_app (l k : list CustomerThread) :
  decided (l ++ k) = decided l + decided k.
Proof. apply count_threads_app. Qed.

Lemma decided_insert (l : list CustomerThread) (i : nat)
      (th th' : CustomerThread) :
  l !! i = Some th ->
  decided (<[i := th']> l) =
  decided l - (if has_decided th then 1 else 0)
            + (if has_decided th' then 1 else 0).
Proof. apply count_threads_insert. Qed.

Lemma decided_bounds (l : list CustomerThread) :
  0 <= decided l <= Z.of_nat (length l).
Proof. apply count_threads_bounds. Qed.

(** * The state invariant *)

Lemma state_inv_init (cap : Z) (ct : Q) : state_inv (shop_init cap ct).
Proof.
  unfold state_inv, barber_holds, chair_implies_cutting, ids_in_order; simpl.
  repeat split; try congruence; auto.
  intros i th H. rewrite lookup_nil in H. discriminate.
Qed.

Lemma ids_insert (ths : list CustomerThread) (i : nat) (th : CustomerThread)
      (pc : customer_pc) :
  (forall j t, ths !! j = Some t -> cid t = Z.of_nat j + 1) ->
  ths !! i = Some th ->
  forall j t, <[i := mkCustomerThread (cid th) pc]> ths !! j = Some t ->
              cid t = Z.of_nat j + 1.
Proof.
  intros Hid Hi j t Hj.
  apply list_lookup_insert_Some in Hj as [(-> & <- & _) | (_ & Hj)]; simpl;
    eauto.
Qed.

Lemma ids_snoc (ths : list CustomerThread) (pc : customer_pc) :
  (forall j t, ths !! j = Some t -> cid t = Z.of_nat j + 1) ->
  forall j t,
    (ths ++ [mkCustomerThread (Z.of_nat (length ths) + 1) pc]) !! j = Some t ->
    cid t = Z.of_nat j + 1.
Proof.
  intros Hid j t Hj.
  apply lookup_snoc_Some in Hj as [(_ & Hj) | (-> & <-)]; simpl; eauto.
Qed.

Lemma state_inv_step (a : action) (c c' : Config) (e : event) :
  state_inv c -> step a c = Some (e, c') -> state_inv c'.
Proof.
  intros Hinv Hs.
  destruct c as [s cs bs stop b g ui ths].
  destruct s as [cap ct sp w sv lf st cur t0].
  destruct g as [pc cnt ne].
  unfold state_inv, barber_holds, chair_implies_cutting, ids_in_order in *.
  simpl in *. destruct Hinv as (Hb & Hc & (Hid & Hg0 & Hg1) & Hn & Hst).
  destruct a as [now|i|now|ch]; simpl in Hs.
  - unfold barber_step, barber_pickup, barber_timeout, barber_finish in Hs.
    unfold_shop.
    break_step Hs; unfold_shop; finish_case.
  - unfold customer_step, customer_enter in Hs. unfold_shop.
    break_step Hs; unfold_shop.
    all: repeat split; auto.
    all: try (eapply ids_insert; eassumption).
    all: try (intros ->%Hg0; rewrite lookup_nil in *; discriminate).
    all: try (rewrite length_insert; assumption).
    all: erewrite decided_insert by eassumption.
    all: unfold has_decided; simpl.
    all: match goal with H : cpc _ = _ |- _ => rewrite H end.
    all: unfold len in *; rewrite ?length_app; simpl; lia.
  - unfold generator_step in Hs. unfold_shop.
    break_step Hs; unfold_shop.
    all: try (specialize (Hg0 eq_refl); subst ths).
    all: try (assert (cnt = Z.of_nat (length ths) + 1) by (apply Hg1; discriminate);
              subst cnt).
    all: repeat split; auto; try discriminate.
    all: try (apply ids_snoc; assumption).
    all: rewrite ?length_app, ?decided_app; unfold decided in *; simpl;
      intros; lia.
  - unfold key_step in Hs. unfold_shop.
    break_step Hs; unfold_shop; finish_case.
Qed.

Lemma config_inv_step (cap : Z) (ct : Q) (a : action) (c c' : Config)
      (e : event) :
  config_inv cap ct c -> step a c = Some (e, c') -> config_inv cap ct c'.
Proof.
  intros Hinv Hs.
  destruct c as [s cs bs stop b g ui ths].
  destruct s as [cap0 ct0 sp w sv lf st cur t0].
  destruct g as [pc cnt ne].
  unfold config_inv in *. simpl in *. destruct Hinv as (<- & <- & Hw).
  destruct a as [now|i|now|ch]; simpl in Hs.
  - unfold barber_step, barber_pickup, barber_timeout, barber_finish in Hs.
    unfold_shop. break_step Hs; unfold_shop; finish_case.
  - unfold customer_step, customer_enter in Hs. unfold_shop.
    break_step Hs; unfold_shop; finish_case.
    all: rewrite ?length_app; simpl; lia.
  - unfold generator_step in Hs. unfold_shop.
    break_step Hs; unfold_shop; finish_case.
  - unfold key_step in Hs. unfold_shop.
    break_step Hs; unfold_shop; finish_case.
Qed.

(** * The trace invariant *)

Lemma proj_snoc (f : event -> option Z) (evs : list event) (e : event) :
  omap f (evs ++ [e]) =
  omap f evs ++ match f e with Some x => [x] | None => [] end.
Proof. rewrite omap_app. simpl. destruct (f e); reflexivity. Qed.

Lemma decided_thread_insert (ths : list CustomerThread) (i : nat)
      (th : CustomerThread) (pc : customer_pc) (x : Z) :
  ths !! i = Some th ->
  has_decided (mkCustomerThread (cid th) pc) = true ->
  (exists j t, ths !! j = Some t /\ cid t = x /\ has_decided t = true) ->
  exists j t, <[i := mkCustomerThread (cid th) pc]> ths !! j = Some t /\
              cid t = x /\ has_decided t = true.
Proof.
  intros Hi Hpc (j & t & Hj & Hx & Hd).
  destruct (decide (i = j)) as [->|Hne].
  - exists j, (mkCustomerThread (cid th) pc). split; [|split]; auto.
    + apply list_lookup_insert_eq. eapply lookup_lt_Some; eauto.
    + simpl. congruence.
  - exists j, t. rewrite list_lookup_insert_ne by assumption. auto.
Qed.

Lemma decided_thread_snoc (ths : list CustomerThread) (th : CustomerThread)
      (x : Z) :
  (exists j t, ths !! j = Some t /\ cid t = x /\ has_decided t = true) ->
  exists j t, (ths ++ [th]) !! j = Some t /\ cid t = x /\ has_decided t = true.
Proof.
  intros (j & t & Hj & Hx & Hd). exists j, t.
  split; [|split]; auto. apply lookup_app_l_Some. assumption.
Qed.

Lemma notify_thread_insert (ths : list CustomerThread) (i : nat)
      (th : CustomerThread) (pc : customer_pc) (A : list Z) :
  ths !! i = Some th ->
  (pc = CNotify -> cid th ∈ A) ->
  (forall j t, ths !! j = Some t -> cpc t = CNotify -> cid t ∈ A) ->
  forall j t, <[i := mkCustomerThread (cid th) pc]> ths !! j = Some t ->
              cpc t = CNotify -> cid t ∈ A.
Proof.
  intros Hi Hpc Hall j t Hj Hn.
  apply list_lookup_insert_Some in Hj as [(-> & <- & _) | (_ & Hj)]; simpl in *;
    eauto.
Qed.

Lemma decided_thread_self (ths : list CustomerThread) (i : nat)
      (th : CustomerThread) (pc : customer_pc) :
  ths !! i = Some th ->
  has_decided (mkCustomerThread (cid th) pc) = true ->
  exists j t, <[i := mkCustomerThread (cid th) pc]> ths !! j = Some t /\
              cid t = cid th /\ has_decided t = true.
Proof.
  intros Hi Hpc. exists i, (mkCustomerThread (cid th) pc).
  split; [|split]; auto.
  apply list_lookup_insert_eq. eapply lookup_lt_Some; eauto.
Qed.

Lemma NoDup_snoc_fresh (l : list Z) (x : Z) :
  NoDup l -> x ∉ l -> NoDup (l ++ [x]).
Proof.
  intros Hl Hx. apply NoDup_app. split; [assumption|]. split.
  - intros y Hy Hs. apply list_elem_of_singleton in Hs. subst. contradiction.
  - apply NoDup_singleton.
Qed.

(** A customer that has not yet entered appears in no decision so far. *)
Lemma undecided_fresh (ths : list CustomerThread) (i : nat)
      (th : CustomerThread) (D : list Z) :
  (forall j t, ths !! j = Some t -> cid t = Z.of_nat j + 1) ->
  (forall x, x ∈ D ->
     exists j t, ths !! j = Some t /\ cid t = x /\ has_decided t = true) ->
  ths !! i = Some th -> cpc th = CEnter -> cid th ∉ D.
Proof.
  intros Hid HD Hi Hpc Hin.
  destruct (HD _ Hin) as (j & t & Hj & Hx & Hd).
  pose proof (Hid _ _ Hj). pose proof (Hid _ _ Hi).
  assert (j = i) by lia. subst j.
  assert (t = th) by congruence. subst t.
  unfold has_decided in Hd. rewrite Hpc in Hd. discriminate.
Qed.

Lemma trace_inv_step (a : action) (c c' : Config) (e : event)
      (evs : list event) :
  state_inv c -> trace_inv evs c -> step a c = Some (e, c') ->
  trace_inv (evs ++ [e]) c'.
Proof.
  intros (_ & _ & (Hid & _ & _) & _ & _) Htr Hs.
  destruct Htr as (T1 & T2 & T3 & T4 & T5 & T6 & T7 & T8 & T9).
  assert (Hfresh : forall i th, threads c !! i = Some th -> cpc th = CEnter ->
                     (cid th ∉ admits evs) /\ (cid th ∉ rejects evs)).
  { intros i th Hi Hpc.
    split; eapply undecided_fresh; eauto. }
  unfold trace_inv, admits, rejects, dequeues, notifies in *.
  rewrite !proj_snoc.
  destruct c as [s cs bs stop b g ui ths].
  destruct s as [cap ct sp w sv lf st cur t0].
  destruct g as [pc cnt ne].
  simpl in *.
  destruct a as [now|i|now|ch]; simpl in Hs.
  - unfold barber_step, barber_pickup, barber_timeout, barber_finish in Hs.
    unfold_shop.
    break_step Hs; unfold_shop; subst; rewrite ?app_nil_r in *.
    all: rewrite <- ?app_assoc; simpl.
    all: repeat split; assumption.
  - unfold customer_step, customer_enter in Hs. unfold_shop.
    break_step Hs; unfold_shop; subst; rewrite ?app_nil_r in *.
    all: match goal with
         | Hi : ?l !! ?i = Some ?th |- _ =>
             pose proof (Hfresh _ _ Hi) as Hf;
             pose proof (fun pc x => decided_thread_insert l i th pc x Hi) as Hdi;
             pose proof (fun pc A => notify_thread_insert l i th pc A Hi) as Hni
         end.
    all: repeat split.
    all: try assumption; try reflexivity.
    all: try (intros x Hx; apply Hdi; [reflexivity | apply T5; assumption]).
    all: try (apply Hni; [discriminate | assumption]).
    all: try (erewrite decided_insert by eassumption;
              unfold has_decided; simpl;
              match goal with H : cpc _ = _ |- _ => rewrite H end;
              unfold len in *; rewrite ?length_app; simpl; lia).
    all: try (destruct (Hf ltac:(assumption)) as [HfA HfR]).
    + rewrite T1, <- app_assoc. reflexivity.
    + apply NoDup_snoc_fresh; assumption.
    + intros x [Hx | Hx%list_elem_of_singleton]%elem_of_app; subst; auto.
    + intros x [[Hx | Hx%list_elem_of_singleton]%elem_of_app | Hx].
      * apply Hdi; [reflexivity | apply T5; auto].
      * subst x. eapply decided_thread_self; eauto.
      * apply Hdi; [reflexivity | apply T5; auto].
    + apply Hni.
      * intros _. apply elem_of_app. right. apply list_elem_of_singleton.
        reflexivity.
      * intros j t Hj Ht. apply elem_of_app. left. eauto.
    + intros x Hx. apply elem_of_app. left. auto.
    + apply NoDup_snoc_fresh; assumption.
    + intros x Hx [Hr | Hr%list_elem_of_singleton]%elem_of_app.
      * eapply T4; eauto.
      * subst. contradiction.
    + intros x [Hx | [Hx | Hx%list_elem_of_singleton]%elem_of_app].
      * apply Hdi; [reflexivity | apply T5; auto].
      * apply Hdi; [reflexivity | apply T5; auto].
      * subst x. eapply decided_thread_self; eauto.
    + unfold len. rewrite length_app. simpl. lia.
    + intros x [Hx | Hx%list_elem_of_singleton]%elem_of_app; [auto|].
      subst. eapply T6; eauto.
  - unfold generator_step in Hs. unfold_shop.
    break_step Hs; unfold_shop; subst; rewrite ?app_nil_r in *.
    all: repeat split; try assumption.
    + intros x Hx. apply decided_thread_snoc. auto.
    + intros i th [(_ & Hi) | (_ & <-)]%lookup_snoc_Some Hpc;
        [eauto | discriminate].
    + rewrite decided_app. unfold decided in *. simpl. lia.
  - unfold key_step in Hs. unfold_shop.
    break_step Hs; unfold_shop; subst; rewrite ?app_nil_r in *.
    all: repeat split; assumption.
Qed.

Lemma trace_inv_init (cap : Z) (ct : Q) : trace_inv [] (shop_init cap ct).
Proof.
  unfold trace_inv; simpl.
  repeat split; try apply NoDup_nil_2; try reflexivity.
  - intros x Hx. apply elem_of_nil in Hx. contradiction.
  - intros x [Hx | Hx]; apply elem_of_nil in Hx; contradiction.
  - intros i th Hi. rewrite lookup_nil in Hi. discriminate.
  - intros x Hx. apply elem_of_nil in Hx. contradiction.
Qed.

(** Everything known about a run from a fresh shop. *)
Lemma run_invariants (cap : Z) (ct : Q) (acts : list action)
      (evs : list event) (c : Config) :
  run acts (shop_init cap ct) = Some (evs, c) ->
  state_inv c /\ trace_inv evs c /\ (0 <= cap -> config_inv cap ct c).
Proof.
  apply (run_ind (fun evs c => state_inv c /\ trace_inv evs c /\
                               (0 <= cap -> config_inv cap ct c))).
  - split; [apply state_inv_init|]. split; [apply trace_inv_init|].
    intros Hcap. unfold config_inv, len; simpl. auto.
  - intros evs0 c0 a e c' (Hst & Htr & Hcf) Hs.
    split; [eapply state_inv_step; eauto|].
    split; [eapply trace_inv_step; eauto|].
    intros Hcap. eapply config_inv_step; eauto.
Qed.

(** * Runs in which the barber never dequeues *)

Lemma paused_inv_step (cap : Z) (ct : Q) (a : action) (c c' : Config)
      (e : event) :
  config_inv cap ct c -> paused_inv c -> step a c = Some (e, c') ->
  dequeued_of e = None -> paused_inv c'.
Proof.
  intros (Hcap & _ & Hle) (Hsv & Hcur & Hfull) Hs He.
  destruct c as [s cs bs stop b g ui ths].
  destruct s as [cap0 ct0 sp w sv lf st cur t0].
  destruct g as [pc cnt ne].
  unfold paused_inv in *. simpl in *.
  destruct a as [now|i|now|ch]; simpl in Hs.
  - unfold barber_step, barber_pickup, barber_timeout, barber_finish in Hs.
    unfold_shop. break_step Hs; unfold_shop; finish_case.
  - unfold customer_step, customer_enter in Hs. unfold_shop.
    break_step Hs; unfold_shop; finish_case.
    all: rewrite ?length_app; simpl; lia.
  - unfold generator_step in Hs. unfold_shop.
    break_step Hs; unfold_shop; finish_case.
  - unfold key_step in Hs. unfold_shop.
    break_step Hs; unfold_shop; finish_case.
Qed.

Lemma run_paused (cap : Z) (ct : Q) (acts : list action) (evs : list event)
      (c : Config) :
  0 <= cap -> run acts (shop_init cap ct) = Some (evs, c) ->
  dequeues evs = [] -> paused_inv c.
Proof.
  intros Hcap Hrun.
  assert (config_inv cap ct c /\ (dequeues evs = [] -> paused_inv c))
    as [_ H]; [|exact H].
  revert acts evs c Hrun.
  apply (run_ind (fun evs c => config_inv cap ct c /\
                               (dequeues evs = [] -> paused_inv c))).
  - split.
    + unfold config_inv, len; simpl. auto.
    + intros _. unfold paused_inv; simpl. repeat split; lia.
  - intros evs0 c0 a e c' (Hcf & Hp) Hs. split.
    + eapply config_inv_step; eauto.
    + unfold dequeues. rewrite proj_snoc. intros [Hd He]%app_eq_nil.
      eapply paused_inv_step; eauto.
      destruct (dequeued_of e); [discriminate | reflexivity].
Qed.

(** * The arrival semaphore *)

Lemma sem_inv_step (a : action) (c c' : Config) (e : event) :
  sem_inv c -> step a c = Some (e, c') -> sem_inv c'.
Proof.
  intros Hinv Hs.
  destruct c as [s cs bs stop b g ui ths].
  destruct s as [cap ct sp w sv lf st cur t0].
  destruct g as [pc cnt ne].
  unfold sem_inv, pending in *. simpl in *.
  destruct a as [now|i|now|ch]; simpl in Hs.
  - unfold barber_step, barber_pickup, barber_timeout, barber_finish in Hs.
    unfold_shop. break_step Hs; unfold_shop; finish_case.
    pose proof (count_threads_bounds announcing ths). lia.
  - unfold customer_step, customer_enter in Hs. unfold_shop.
    break_step Hs; unfold_shop.
    all: erewrite count_threads_insert by eassumption.
    all: unfold announcing in *; simpl.
    all: match goal with H : cpc _ = _ |- _ => rewrite H end.
    all: unfold len in *; rewrite ?length_app; simpl; lia.
  - unfold generator_step in Hs. unfold_shop.
    break_step Hs; unfold_shop; try assumption.
    rewrite count_threads_app. simpl. lia.
  - unfold key_step in Hs. unfold_shop.
    break_step Hs; unfold_shop; assumption.
Qed.

Lemma run_sem_inv (cap : Z) (ct : Q) (acts : list action) (evs : list event)
      (c : Config) :
  run acts (shop_init cap ct) = Some (evs, c) -> sem_inv c.
Proof.
  apply (run_ind (fun _ c => sem_inv c)).
  - reflexivity.
  - intros evs0 c0 a e c' Hinv Hs. eapply sem_inv_step; eauto.
Qed.

(** Whenever the barber has acquired [customers_sem], somebody is in the
    queue: the [else] branch of lines 60-62 is defensive. *)
Lemma pickup_finds_customer (cap : Z) (ct : Q) (c : Config) :
  reachable cap ct c -> barber c = BPickup -> waiting (shop c) <> [].
Proof.
  intros (acts & evs & Hrun) Hpc Hw.
  pose proof (run_sem_inv _ _ _ _ _ Hrun) as Hs.
  unfold sem_inv, pending in Hs. rewrite Hpc, Hw in Hs.
  pose proof (count_threads_bounds announcing (threads c)).
  unfold len in Hs. simpl in Hs. lia.
Qed.

(** * The shared state and its locked blocks *)

(** C9: a freshly constructed shop state, whatever the capacity and the cut
    duration, has an empty waiting queue, [served = 0], [left = 0], the
    barber sleeping, no current customer, no haircut start time, and arrival
    speed 3, the middle one of the five levels of the speed table. *)
Theorem fresh_shop_state (cap : Z) (ct : Q) :
  let s := ShopState_init cap ct in
  capacity s = cap /\ cut_time s = ct /\
  waiting s = [] /\ served s = 0 /\ left s = 0 /\
  barber_status s = "sleeping"%string /\
  current_customer s = None /\ haircut_start_time s = None /\
  arrival_speed s = 3 /\
  map fst speed_to_interval = [1; 2; 3; 4; 5] /\
  map fst speed_to_interval !! 2%nat = Some (arrival_speed s).
Proof. simpl. repeat split; reflexivity. Qed.

(** C6: the completion block of the barber is guarded by an equality test on
    the id.  When [current_customer] still is the id just served, the block
    clears [current_customer] and [haircut_start_time], adds exactly one to
    [served], and sets the status to sleeping if the queue is empty and to
    cutting otherwise, leaving every other field alone.  When it is anything
    else the block changes nothing. *)
Theorem finish_guarded_by_id (x : Z) (s : ShopState) :
  (current_customer s = Some x ->
   barber_finish x s =
   {| capacity := capacity s;
      cut_time := cut_time s;
      arrival_speed := arrival_speed s;
      waiting := waiting s;
      served := served s + 1;
      left := left s;
      barber_status :=
        match waiting s with [] => "sleeping" | _ :: _ => "cutting" end;
      current_customer := None;
      haircut_start_time := None |}) /\
  (current_customer s <> Some x -> barber_finish x s = s).
Proof.
  unfold barber_finish, is_current. split; intros H.
  - rewrite H, Z.eqb_refl. unfold_shop. destruct (waiting s); reflexivity.
  - destruct (current_customer s) as [y|]; [|reflexivity].
    destruct (Z.eqb_spec y x); [congruence | reflexivity].
Qed.

Lemma finish_guarded_by_id_witness :
  let s := mkShopState 5 (8 # 5) 3 [8] 6 0 "cutting" (Some 7) (Some (1 # 1)%Q) in
  (current_customer s = Some 7 /\
   barber_finish 7 s = mkShopState 5 (8 # 5) 3 [8] 7 0 "cutting" None None) /\
  (current_customer s <> Some 9 /\ barber_finish 9 s = s).
Proof.
  intros s. split.
  - split; [reflexivity|].
    exact (proj1 (finish_guarded_by_id 7 s) eq_refl).
  - assert (H : current_customer s <> Some 9) by (simpl; congruence).
    split; [exact H|].
    exact (proj2 (finish_guarded_by_id 9 s) H).
Defined.

(** C8: a spurious wakeup is a no-op.  When the barber has acquired the
    arrival semaphore and then finds the queue empty under the lock, the
    block dequeues nothing and releases nothing on [barber_sem]; the barber
    goes back to the head of its loop and the shared state, both semaphores,
    the stop event and every other thread are as before. *)
Theorem spurious_wakeup_noop (now : Q) (c : Config) :
  barber c = BPickup -> waiting (shop c) = [] ->
  barber_pickup now (shop c) = (shop c, None, 0%nat) /\
  barber_step now c = Some (EvTau, set_barber BLoop c).
Proof.
  intros Hpc Hw. unfold barber_step, barber_pickup. rewrite Hpc, Hw.
  split; [reflexivity|].
  destruct c; unfold_shop. rewrite Nat.add_0_r. reflexivity.
Qed.

Lemma spurious_wakeup_noop_witness :
  let c := set_barber BPickup main_init in
  barber c = BPickup /\ waiting (shop c) = [] /\
  barber_pickup (1 # 2) (shop c) = (shop c, None, 0%nat) /\
  barber_step (1 # 2) c = Some (EvTau, main_init).
Proof.
  intros c. split; [reflexivity|]. split; [reflexivity|].
  exact (spurious_wakeup_noop (1 # 2) c eq_refl eq_refl).
Defined.

(** C10: a rejected customer only adds one to [left].  The locked block
    leaves the queue, [served], the barber status, the current customer, the
    haircut start time and the configuration fields as they were; the thread
    returns at once, without touching either semaphore, so it never releases
    [customers_sem]; and in no run is a rejected id ever announced to the
    barber or admitted. *)
Theorem rejected_customer_frame :
  (forall x s,
      capacity s <= len (waiting s) ->
      customer_enter x s =
      ({| capacity := capacity s;
          cut_time := cut_time s;
          arrival_speed := arrival_speed s;
          waiting := waiting s;
          served := served s;
          left := left s + 1;
          barber_status := barber_status s;
          current_customer := current_customer s;
          haircut_start_time := haircut_start_time s |}, false)) /\
  (forall i th c,
      threads c !! i = Some th -> cpc th = CEnter ->
      capacity (shop c) <= len (waiting (shop c)) ->
      exists c',
        customer_step i c = Some (EvReject (cid th), c') /\
        shop c' = set_left (left (shop c) + 1) (shop c) /\
        customers_sem c' = customers_sem c /\
        barber_sem c' = barber_sem c /\
        stop_event c' = stop_event c /\
        barber c' = barber c /\
        generator c' = generator c /\
        threads c' = <[i := mkCustomerThread (cid th) CDone]> (threads c) /\
        customer_step i c' = None) /\
  (forall cap ct acts evs c x,
      run acts (shop_init cap ct) = Some (evs, c) ->
      x ∈ rejects evs -> (x ∉ notifies evs) /\ (x ∉ admits evs)).
Proof.
  split; [|split].
  - intros x s H. unfold customer_enter.
    destruct (Z.ltb_spec (len (waiting s)) (capacity s)); [lia|].
    reflexivity.
  - intros i th c Hi Hpc H. unfold customer_step, customer_enter.
    rewrite Hi, Hpc.
    destruct (Z.ltb_spec (len (waiting (shop c))) (capacity (shop c))); [lia|].
    eexists. split; [reflexivity|]. unfold_shop.
    repeat split.
    rewrite list_lookup_insert_eq by (eapply lookup_lt_Some; eauto).
    reflexivity.
  - intros cap ct acts evs c x Hrun Hx.
    destruct (run_invariants _ _ _ _ _ Hrun)
      as (_ & (_ & _ & _ & T4 & _ & _ & T7 & _) & _).
    split; intros Hn; [apply T7 in Hn|]; exact (T4 _ Hn Hx).
Qed.

Lemma rejected_customer_frame_witness :
  let c := final sched_first_enters one_chair in
  let th := mkCustomerThread 2 CEnter in
  (capacity (shop c) <= len (waiting (shop c)) /\
   customer_enter 2 (shop c) = (set_left 1 (shop c), false)) /\
  (threads c !! 1%nat = Some th /\ cpc th = CEnter /\
   exists c', customer_step 1 c = Some (EvReject 2, c') /\
              customers_sem c' = customers_sem c /\
              customer_step 1 c' = None) /\
  (run sched_second_enters one_chair =
     Some (trace sched_second_enters one_chair,
           final sched_second_enters one_chair) /\
   2 ∈ rejects (trace sched_second_enters one_chair) /\
   2 ∉ notifies (trace sched_second_enters one_chair)).
Proof.
  intros c th.
  destruct rejected_customer_frame as (H1 & H2 & H3).
  assert (Hfull : capacity (shop c) <= len (waiting (shop c)))
    by (vm_compute; discriminate).
  split; [|split].
  - split; [exact Hfull|]. exact (H1 2 (shop c) Hfull).
  - split; [reflexivity|]. split; [reflexivity|].
    destruct (H2 1%nat th c eq_refl eq_refl Hfull)
      as (c' & Hs & _ & Hsem & _ & _ & _ & _ & _ & Hnone).
    exists c'. auto.
  - assert (Hrun : run sched_second_enters one_chair =
                   Some (trace sched_second_enters one_chair,
                         final sched_second_enters one_chair))
      by (vm_compute; reflexivity).
    assert (Hin : 2 ∈ rejects (trace sched_second_enters one_chair))
      by (vm_compute; apply list_elem_of_singleton; reflexivity).
    split; [exact Hrun|]. split; [exact Hin|].
    exact (proj1 (H3 _ _ _ _ _ 2 Hrun Hin)).
Defined.

(** * The generator *)

(** C7, as stated, fails: no baseline makes the fastest interval 0.25 times
    it and the slowest interval 8 times it, whichever end of the table is
    taken as the fast one; the slowest interval is 8 times the fastest. *)
Lemma no_common_baseline :
  let fast := dict_get speed_to_interval 5 (3 # 5) in
  let slow := dict_get speed_to_interval 1 (3 # 5) in
  (fast == 1 # 4)%Q /\ (slow == 2 # 1)%Q /\
  ~ (exists b : Q, fast == (1 # 4) * b /\ slow == (8 # 1) * b)%Q /\
  ~ (exists b : Q, slow == (1 # 4) * b /\ fast == (8 # 1) * b)%Q.
Proof.
  simpl. split; [reflexivity|]. split; [reflexivity|].
  split; intros (b & H1 & H2); lra.
Qed.

(** C7, amended: the table has exactly the five levels 1 to 5, with
    intervals 2.0, 1.0, 0.6, 0.4 and 0.25 from slowest to fastest.  With the
    interval of level 2 (1.0) as the baseline, the fastest interval is 0.25
    times the baseline and the slowest is 2 times the baseline, that is 8
    times the fastest.  Every round of the generator loop reads
    [arrival_speed] anew under the lock and looks the interval up from that
    value, falling back to 0.6 for a speed that is not in the table. *)
Theorem speed_table_intervals :
  map fst speed_to_interval = [1; 2; 3; 4; 5] /\
  map snd speed_to_interval =
    [(2 # 1)%Q; (1 # 1)%Q; (3 # 5)%Q; (2 # 5)%Q; (1 # 4)%Q] /\
  (let baseline := dict_get speed_to_interval 2 (3 # 5) in
   let fast := dict_get speed_to_interval 5 (3 # 5) in
   let slow := dict_get speed_to_interval 1 (3 # 5) in
   fast == (1 # 4) * baseline /\ slow == (2 # 1) * baseline /\
   slow == (8 # 1) * fast /\
   forall k v, (k, v) ∈ speed_to_interval -> fast <= v <= slow)%Q /\
  (forall s, ~ (1 <= arrival_speed s <= 5) -> interval_of s = (3 # 5)%Q) /\
  (forall now c,
      gpc (generator c) = GLoop -> stop_event c = false ->
      exists c1 c2,
        generator_step now c = Some (EvTau, c1) /\ shop c1 = shop c /\
        gpc (generator c1) = GRead /\
        generator_step now c1 = Some (EvTau, c2) /\
        gpc (generator c2) =
          GPace (dict_get speed_to_interval (arrival_speed (shop c)) (3 # 5))) /\
  (forall now c interval,
      gpc (generator c) = GPace interval ->
      exists e c', generator_step now c = Some (e, c') /\
                   gpc (generator c') = GLoop).
Proof.
  split; [reflexivity|]. split; [reflexivity|]. split; [|split; [|split]].
  - simpl. split; [reflexivity|]. split; [reflexivity|]. split; [reflexivity|].
    intros k v Hin.
    repeat (apply elem_of_cons in Hin as [Hin | Hin];
            [injection Hin as -> ->; split; discriminate|]).
    apply elem_of_nil in Hin. contradiction.
  - intros s Hs. unfold interval_of, speed_to_interval. cbn [dict_get].
    repeat match goal with
           | |- context [Z.eqb ?a ?b] => destruct (Z.eqb_spec a b); [lia|]
           end.
    reflexivity.
  - intros now c Hpc Hstop. unfold generator_step. rewrite Hpc, Hstop.
    eexists. eexists. split; [reflexivity|]. simpl.
    split; [reflexivity|]. split; [reflexivity|]. split; reflexivity.
  - intros now c interval Hpc. unfold generator_step. rewrite Hpc.
    destruct (Qlt_bool now (next_emit (generator c)));
      eexists; eexists; split; reflexivity.
Qed.

Lemma speed_table_intervals_witness :
  let c := final (ActGenerator 0 :: generator_round 0) main_init in
  let c5 := set_shop (set_arrival_speed 5 (shop c)) c in
  (~ (1 <= arrival_speed (set_arrival_speed 9 (shop c)) <= 5) /\
   interval_of (set_arrival_speed 9 (shop c)) = (3 # 5)%Q) /\
  (gpc (generator c5) = GLoop /\ stop_event c5 = false /\
   exists c1 c2,
     generator_step 1 c5 = Some (EvTau, c1) /\
     generator_step 1 c1 = Some (EvTau, c2) /\
     gpc (generator c2) = GPace (1 # 4)) /\
  (gpc (generator (final [ActGenerator 1; ActGenerator 1] c5)) =
     GPace (1 # 4) /\
   exists e c', generator_step 1 (final [ActGenerator 1; ActGenerator 1] c5)
                = Some (e, c') /\ gpc (generator c') = GLoop).
Proof.
  intros c c5.
  destruct speed_table_intervals as (_ & _ & _ & H1 & H2 & H3).
  split; [|split].
  - assert (Hs : ~ (1 <= arrival_speed (set_arrival_speed 9 (shop c)) <= 5))
      by (simpl; lia).
    split; [exact Hs|]. exact (H1 _ Hs).
  - split; [reflexivity|]. split; [reflexivity|].
    destruct (H2 1%Q c5 eq_refl eq_refl) as (c1 & c2 & Ha & _ & _ & Hb & Hc).
    exists c1, c2. auto.
  - split; [reflexivity|].
    exact (H3 1%Q (final [ActGenerator 1; ActGenerator 1] c5) (1 # 4)%Q eq_refl).
Defined.

(** * Positions of events and of the ids they carry *)

Section Positions.
Variable f : event -> option Z.

(** The place of an event's id among the ids of its kind. *)
Lemma proj_position (evs : list event) (i : nat) (e : event) (x : Z) :
  evs !! i = Some e -> f e = Some x ->
  omap f evs !! length (omap f (take i evs)) = Some x.
Proof.
  intros Hi He.
  remember (length (omap f (take i evs))) as n eqn:Hn.
  rewrite <- (take_drop_middle evs i e Hi).
  rewrite omap_app. simpl. rewrite He.
  apply list_lookup_middle. exact Hn.
Qed.

Lemma proj_position_mono (evs : list event) (i j : nat) :
  (i <= j)%nat ->
  (length (omap f (take i evs)) <= length (omap f (take j evs)))%nat.
Proof.
  intros Hij. replace j with (i + (j - i))%nat by lia.
  rewrite <- take_take_drop, omap_app, length_app. lia.
Qed.

Lemma proj_position_lt (evs : list event) (i j : nat) (e : event) (x : Z) :
  evs !! i = Some e -> f e = Some x -> (i < j)%nat ->
  (length (omap f (take i evs)) < length (omap f (take j evs)))%nat.
Proof.
  intros Hi He Hij.
  pose proof (proj_position_mono evs (S i) j ltac:(lia)) as Hm.
  rewrite (take_S_r _ _ _ Hi), omap_app, length_app in Hm.
  simpl in Hm. rewrite He in Hm. simpl in Hm. lia.
Qed.
End Positions.

(** * Properties of the reachable configurations *)

(** C1: in every reachable configuration of a shop built with a capacity
    that is not negative, the queue length is between 0 and the capacity
    (which is still the constructor's).  A customer appends only when the
    locked test [len(waiting) < capacity] succeeds, and the barber only
    removes the front element. *)
Theorem waiting_within_capacity :
  (forall cap ct c,
      0 <= cap -> reachable cap ct c ->
      capacity (shop c) = cap /\
      0 <= len (waiting (shop c)) <= capacity (shop c)) /\
  (forall x s,
      waiting (fst (customer_enter x s)) =
      if len (waiting s) <? capacity s then waiting s ++ [x] else waiting s) /\
  (forall now s,
      waiting (fst (fst (barber_pickup now s))) = tail (waiting s)).
Proof.
  split; [|split].
  - intros cap ct c Hcap (acts & evs & Hrun).
    destruct (run_invariants _ _ _ _ _ Hrun) as (_ & _ & Hcf).
    destruct (Hcf Hcap) as (Hc & _ & Hle).
    split; [assumption|]. unfold len in *. lia.
  - intros x s. unfold customer_enter.
    destruct (len (waiting s) <? capacity s); reflexivity.
  - intros now s. unfold barber_pickup.
    destruct (waiting s) eqn:E; simpl; [rewrite E|]; reflexivity.
Qed.

Lemma waiting_within_capacity_witness :
  let c := final sched_first_haircut main_init in
  0 <= 5 /\ reachable 5 (8 # 5) c /\
  capacity (shop c) = 5 /\ 0 <= len (waiting (shop c)) <= capacity (shop c).
Proof.
  intros c.
  assert (Hcap : 0 <= 5) by lia.
  assert (Hr : reachable 5 (8 # 5) c).
  { exists sched_first_haircut, (trace sched_first_haircut main_init).
    vm_compute. reflexivity. }
  split; [exact Hcap|]. split; [exact Hr|].
  exact (proj1 waiting_within_capacity 5 (8 # 5) c Hcap Hr).
Defined.

(** C2: admission is one locked test-and-append.  With room left the id is
    appended and the customer is admitted; otherwise [left] grows by one and
    the customer is rejected.  In every run in which the barber dequeues
    nobody, the queue is exactly the list of admitted ids, and of the [n]
    customers that have taken the decision [min n capacity] were admitted and
    the others rejected, whatever the interleaving; in particular [capacity]
    admitted and one rejected once [capacity + 1] customers were spawned and
    have all decided. *)
Theorem admission_atomic_and_exact :
  (forall x s,
      len (waiting s) < capacity s ->
      customer_enter x s = (set_waiting (waiting s ++ [x]) s, true)) /\
  (forall x s,
      capacity s <= len (waiting s) ->
      customer_enter x s = (set_left (left s + 1) s, false)) /\
  (forall i th c,
      threads c !! i = Some th -> cpc th = CEnter ->
      let room := len (waiting (shop c)) <? capacity (shop c) in
      customer_step i c =
      Some (if room then EvAdmit (cid th) else EvReject (cid th),
            set_threads
              (<[i := mkCustomerThread (cid th) (if room then CNotify else CDone)]>
                 (threads c))
              (set_shop (fst (customer_enter (cid th) (shop c))) c))) /\
  (forall cap ct acts evs c,
      0 <= cap ->
      run acts (shop_init cap ct) = Some (evs, c) ->
      dequeues evs = [] ->
      let n := decided (threads c) in
      waiting (shop c) = admits evs /\
      left (shop c) = len (rejects evs) /\
      len (admits evs) = Z.min n cap /\
      len (rejects evs) = n - Z.min n cap /\
      (spawned c = cap + 1 -> n = spawned c ->
       len (admits evs) = cap /\ len (rejects evs) = 1)).
Proof.
  split; [|split; [|split]].
  - intros x s H. unfold customer_enter.
    destruct (Z.ltb_spec (len (waiting s)) (capacity s)); [reflexivity | lia].
  - intros x s H. unfold customer_enter.
    destruct (Z.ltb_spec (len (waiting s)) (capacity s)); [lia | reflexivity].
  - intros i th c Hi Hpc room. unfold customer_step, customer_enter.
    rewrite Hi, Hpc. fold room. destruct room; reflexivity.
  - intros cap ct acts evs c Hcap Hrun Hdq n.
    destruct (run_invariants _ _ _ _ _ Hrun) as (Hst & Htr & Hcf).
    destruct Hst as (_ & _ & _ & Hsum & _).
    destruct Htr as (T1 & _ & _ & _ & _ & _ & _ & T8 & T9).
    destruct (Hcf Hcap) as (Hc & _ & Hle).
    destruct (run_paused _ _ _ _ _ Hcap Hrun Hdq) as (Hsv & Hcur & Hfull).
    rewrite Hdq in T1. simpl in T1.
    unfold in_chair in Hsum. rewrite Hcur, Hsv in Hsum. fold n in Hsum, T9.
    rewrite Hc in Hfull. rewrite <- T1 in *.
    assert (0 <= len (rejects evs)) by (unfold len; lia).
    assert (0 <= len (admits evs)) by (unfold len; lia).
    split; [reflexivity|]. split; [lia|].
    assert (len (admits evs) = Z.min n cap) by lia.
    split; [assumption|]. split; [lia|].
    intros Hsp Hall. lia.
Qed.

Lemma admission_atomic_and_exact_witness :
  let s0 := ShopState_init 1 (8 # 5) in
  let s1 := set_waiting [1] s0 in
  let c := final sched_one_chair one_chair in
  let evs := trace sched_one_chair one_chair in
  (len (waiting s0) < capacity s0 /\
   customer_enter 1 s0 = (set_waiting (waiting s0 ++ [1]) s0, true)) /\
  (capacity s1 <= len (waiting s1) /\
   customer_enter 2 s1 = (set_left (left s1 + 1) s1, false)) /\
  (threads (final sched_spawn_two one_chair) !! 1%nat
     = Some (mkCustomerThread 2 CEnter) /\
   exists c', customer_step 1 (final sched_spawn_two one_chair)
              = Some (EvAdmit 2, c')) /\
  (0 <= 1 /\ run sched_one_chair one_chair = Some (evs, c) /\
   dequeues evs = [] /\ spawned c = 1 + 1 /\
   decided (threads c) = spawned c /\
   len (admits evs) = 1 /\ len (rejects evs) = 1).
Proof.
  intros s0 s1 c evs.
  destruct admission_atomic_and_exact as (H1 & H2 & Hth & H3).
  split; [|split; [|split]].
  - assert (Hlt : len (waiting s0) < capacity s0) by reflexivity.
    split; [exact Hlt|]. exact (H1 1 s0 Hlt).
  - assert (Hge : capacity s1 <= len (waiting s1)) by (vm_compute; discriminate).
    split; [exact Hge|]. exact (H2 2 s1 Hge).
  - split; [reflexivity|]. eexists.
    exact (Hth 1%nat (mkCustomerThread 2 CEnter)
               (final sched_spawn_two one_chair) eq_refl eq_refl).
  - assert (Hcap : 0 <= 1) by lia.
    assert (Hrun : run sched_one_chair one_chair = Some (evs, c))
      by (vm_compute; reflexivity).
    assert (Hdq : dequeues evs = []) by (vm_compute; reflexivity).
    assert (Hsp : spawned c = 1 + 1) by (vm_compute; reflexivity).
    assert (Hall : decided (threads c) = spawned c) by (vm_compute; reflexivity).
    destruct (H3 1 (8 # 5)%Q _ evs c Hcap Hrun Hdq) as (_ & _ & _ & _ & Hlast).
    destruct (Hlast Hsp Hall) as (Ha & Hr).
    split; [exact Hcap|]. split; [exact Hrun|]. split; [exact Hdq|].
    split; [exact Hsp|]. split; [exact Hall|]. split; [exact Ha | exact Hr].
Defined.

(** * The counters around the shutdown *)

(** Once the stop event is set, [served] can still grow by the customer in
    the chair or by one customer the barber is about to dequeue, not more:
    [served], the chair and the barber's budget together never grow. *)
Lemma shutdown_step (a : action) (c c' : Config) (e : event) :
  step a c = Some (e, c') -> stop_event c = true ->
  stop_event c' = true /\
  served (shop c) <= served (shop c') /\
  served (shop c') + in_chair (shop c') + Z.of_nat (dequeue_budget (barber c'))
    <= served (shop c) + in_chair (shop c)
       + Z.of_nat (dequeue_budget (barber c)).
Proof.
  intros Hs Hstop.
  destruct c as [s cs bs stop b g ui ths].
  destruct s as [cap ct sp w sv lf st cur t0].
  destruct g as [pc cnt ne].
  simpl in *. subst stop.
  destruct a as [now|i|now|ch]; simpl in Hs.
  - unfold barber_step, barber_pickup, barber_timeout, barber_finish in Hs.
    unfold_shop. rewrite ?andb_false_r in Hs.
    break_step Hs; unfold_shop; subst; simpl; repeat split;
      try destruct cur; lia.
  - unfold customer_step, customer_enter in Hs. unfold_shop.
    break_step Hs; unfold_shop; simpl; repeat split; lia.
  - unfold generator_step in Hs. unfold_shop.
    break_step Hs; unfold_shop; simpl; repeat split; lia.
  - unfold key_step in Hs. unfold_shop.
    break_step Hs; unfold_shop; simpl; repeat split; lia.
Qed.

Lemma shutdown_run (acts : list action) (c c' : Config) (evs : list event) :
  run acts c = Some (evs, c') -> stop_event c = true ->
  served (shop c) <= served (shop c') /\
  served (shop c') + in_chair (shop c') + Z.of_nat (dequeue_budget (barber c'))
    <= served (shop c) + in_chair (shop c)
       + Z.of_nat (dequeue_budget (barber c)).
Proof.
  revert c evs. induction acts as [|a acts IH]; intros c evs Hrun Hstop;
    simpl in Hrun.
  - injection Hrun as <- <-. lia.
  - destruct (step a c) as [[e c1]|] eqn:Hs; [|discriminate].
    destruct (run acts c1) as [[evs1 c2]|] eqn:Hr; [|discriminate].
    injection Hrun as <- <-.
    destruct (shutdown_step _ _ _ _ Hs Hstop) as (Hstop1 & H1 & H2).
    destruct (IH _ _ Hr Hstop1) as (H3 & H4). lia.
Qed.

(** Once the barber has returned nobody is dequeued or counted in [served]
    any more; customers that still enter are appended to the queue. *)
Lemma barber_gone_step (a : action) (c c' : Config) (e : event) :
  step a c = Some (e, c') -> barber c = BExit ->
  barber c' = BExit /\ served (shop c') = served (shop c) /\
  dequeued_of e = None /\
  exists l, waiting (shop c') = waiting (shop c) ++ l.
Proof.
  intros Hs Hpc.
  destruct c as [s cs bs stop b g ui ths].
  destruct s as [cap ct sp w sv lf st cur t0].
  destruct g as [pc cnt ne].
  simpl in *. subst b.
  destruct a as [now|i|now|ch]; simpl in Hs.
  - discriminate Hs.
  - unfold customer_step, customer_enter in Hs. unfold_shop.
    break_step Hs; unfold_shop; repeat split; auto.
    all: first [ eexists; reflexivity
               | exists []; rewrite app_nil_r; reflexivity ].
  - unfold generator_step in Hs. unfold_shop.
    break_step Hs; unfold_shop; repeat split; auto.
    all: exists []; rewrite app_nil_r; reflexivity.
  - unfold key_step in Hs. unfold_shop.
    break_step Hs; unfold_shop; repeat split; auto.
    all: exists []; rewrite app_nil_r; reflexivity.
Qed.

Lemma barber_gone_run (acts : list action) (c c' : Config) (evs : list event) :
  run acts c = Some (evs, c') -> barber c = BExit ->
  barber c' = BExit /\ served (shop c') = served (shop c) /\
  dequeues evs = [] /\
  exists l, waiting (shop c') = waiting (shop c) ++ l.
Proof.
  revert c evs. induction acts as [|a acts IH]; intros c evs Hrun Hpc;
    simpl in Hrun.
  - injection Hrun as <- <-. repeat split; auto.
    exists []. rewrite app_nil_r. reflexivity.
  - destruct (step a c) as [[e c1]|] eqn:Hs; [|discriminate].
    destruct (run acts c1) as [[evs1 c2]|] eqn:Hr; [|discriminate].
    injection Hrun as <- <-.
    destruct (barber_gone_step _ _ _ _ Hs Hpc) as (Hpc1 & Hv1 & He & l1 & Hw1).
    destruct (IH _ _ Hr Hpc1) as (Hpc2 & Hv2 & Hd & l2 & Hw2).
    split; [exact Hpc2|]. split; [congruence|]. split.
    + unfold dequeues in *. cbn. rewrite He. exact Hd.
    + exists (l1 ++ l2). rewrite Hw2, Hw1, app_assoc. reflexivity.
Qed.

(** C3, as stated, fails.  In [main]'s shop one customer is admitted and
    announces itself, then [q] is pressed: the customer leaves its wait, the
    barber and the generator leave their loops.  Every thread has returned,
    no action of the program is possible any more, one customer was spawned,
    and it is counted neither in [served] nor in [left]: it is still in the
    queue. *)
Lemma conservation_breaks_on_shutdown :
  let c := final sched_shutdown_while_waiting main_init in
  run sched_shutdown_while_waiting main_init =
    Some (trace sched_shutdown_while_waiting main_init, c) /\
  all_returned c = true /\
  (forall a, step a c = None) /\
  spawned c = 1 /\
  served (shop c) = 0 /\ left (shop c) = 0 /\
  served (shop c) + left (shop c) <> spawned c /\
  waiting (shop c) = [1].
Proof.
  intros c.
  split; [vm_compute; reflexivity|].
  split; [vm_compute; reflexivity|].
  split.
  { intros [now|i|now|ch]; [reflexivity| |reflexivity|reflexivity].
    destruct i as [|i]; reflexivity. }
  split; [vm_compute; reflexivity|].
  split; [vm_compute; reflexivity|].
  split; [vm_compute; reflexivity|].
  split; [vm_compute; discriminate|].
  vm_compute; reflexivity.
Qed.

(** C3, amended: at the end of every run, [served + left] plus the length of
    the queue plus one if the chair is occupied equals the number of
    customers that have taken the admission decision, which is the number of
    admitted plus the number of rejected ids.  No id is decided twice; [left]
    counts the rejected ones, and [served], the chair and the queue together
    count the admitted ones: [served] and the chair count the dequeued ones,
    so a customer in the queue is counted neither in [served] nor in [left].
    So [served + left] is the number of customers spawned once all of them
    have decided, the queue is empty and the chair is free.

    Around the shutdown: a cut in progress when the stop event is set is
    still completed and counted in [served]; a barber that has passed its
    loop test and finds a unit on [customers_sem] still dequeues the front
    customer, cuts no slice, counts it in [served] and returns; in all,
    [served] grows by at most one after the stop event is set (by the
    customer in the chair, or by the one the barber is about to dequeue).
    Once the barber has returned, [served] no longer changes, nobody is
    dequeued, and the queue keeps its customers. *)
Theorem conservation_with_queue_and_chair (cap : Z) (ct : Q)
        (acts : list action) (evs : list event) (c : Config) :
  run acts (shop_init cap ct) = Some (evs, c) ->
  served (shop c) + left (shop c) + len (waiting (shop c)) + in_chair (shop c)
    = decided (threads c) /\
  decided (threads c) = len (admits evs) + len (rejects evs) /\
  left (shop c) = len (rejects evs) /\
  served (shop c) + in_chair (shop c) + len (waiting (shop c))
    = len (admits evs) /\
  NoDup (admits evs) /\ NoDup (rejects evs) /\
  (forall x, x ∈ admits evs -> x ∉ rejects evs) /\
  0 <= decided (threads c) <= spawned c /\
  (decided (threads c) = spawned c ->
   waiting (shop c) = [] -> current_customer (shop c) = None ->
   served (shop c) + left (shop c) = spawned c) /\
  (forall x r now,
      barber c = BCut x r -> stop_event c = true ->
      exists c',
        run [ActBarber now; ActBarber now] c = Some ([EvTau; EvServed x], c') /\
        served (shop c') = served (shop c) + 1 /\
        current_customer (shop c') = None) /\
  (served (shop c) + in_chair (shop c) = len (dequeues evs) /\
   forall x, x ∈ waiting (shop c) ->
             x ∈ admits evs /\ (x ∉ dequeues evs) /\ (x ∉ rejects evs)) /\
  (forall n now,
      barber c = BAcquire -> customers_sem c = S n -> stop_event c = true ->
      exists x rest c',
        waiting (shop c) = x :: rest /\
        run [ActBarber now; ActBarber now; ActBarber now; ActBarber now;
             ActBarber now] c
          = Some ([EvTau; EvDequeue x; EvTau; EvServed x; EvTau], c') /\
        served (shop c') = served (shop c) + 1 /\
        waiting (shop c') = rest /\ left (shop c') = left (shop c) /\
        barber c' = BExit) /\
  (stop_event c = true ->
   in_chair (shop c) + Z.of_nat (dequeue_budget (barber c)) <= 1 /\
   forall acts' evs' c',
     run acts' c = Some (evs', c') ->
     served (shop c) <= served (shop c')
       <= (served (shop c) + in_chair (shop c)
           + Z.of_nat (dequeue_budget (barber c)))) /\
  (barber c = BExit ->
   forall acts' evs' c',
     run acts' c = Some (evs', c') ->
     barber c' = BExit /\ served (shop c') = served (shop c) /\
     dequeues evs' = [] /\
     exists l, waiting (shop c') = waiting (shop c) ++ l).
Proof.
  intros Hrun.
  destruct (run_invariants _ _ _ _ _ Hrun) as (Hst & Htr & _).
  destruct Hst as (Hhold & _ & _ & Hsum & _).
  destruct Htr as (T1 & T2 & T3 & T4 & _ & _ & _ & T8 & T9).
  pose proof (decided_bounds (threads c)) as Hb.
  assert (Hadm : served (shop c) + in_chair (shop c) + len (waiting (shop c))
                 = len (admits evs)) by lia.
  split; [assumption|]. split; [assumption|]. split; [auto|].
  split; [exact Hadm|]. split; [assumption|]. split; [assumption|].
  split; [assumption|]. split; [exact Hb|].
  split; [|split; [|split; [|split; [|split]]]].
  - intros Hall Hw Hcur. unfold in_chair, len in Hsum.
    rewrite Hw, Hcur in Hsum. simpl in Hsum. lia.
  - intros x r now Hpc Hstop.
    unfold barber_holds in Hhold. rewrite Hpc in Hhold.
    unfold run, step, barber_step. rewrite Hpc, Hstop, andb_false_r.
    unfold barber_finish, is_current. simpl.
    rewrite Hhold, Z.eqb_refl. eexists. split; [reflexivity|].
    simpl. split; reflexivity.
  - split.
    + rewrite T1 in Hadm. unfold len in *. rewrite length_app in Hadm. lia.
    + intros x Hx. rewrite T1 in T2. apply NoDup_app in T2 as (_ & Hdis & _).
      split; [rewrite T1; apply elem_of_app; right; exact Hx|].
      split; [intros Hd; exact (Hdis x Hd Hx)|].
      apply T4. rewrite T1. apply elem_of_app. right. exact Hx.
  - intros n now Hpc Hsem Hstop.
    pose proof (run_sem_inv _ _ _ _ _ Hrun) as Hs.
    unfold sem_inv, pending in Hs. rewrite Hpc, Hsem in Hs.
    pose proof (count_threads_bounds announcing (threads c)) as Hp.
    destruct (waiting (shop c)) as [|x rest] eqn:Hw;
      [unfold len in Hs; simpl in Hs; lia|].
    exists x, rest.
    unfold run, step, barber_step, barber_pickup.
    rewrite Hpc, Hsem. unfold_shop. rewrite Hw. unfold_shop.
    rewrite Hstop, andb_false_r. unfold barber_finish. unfold_shop.
    rewrite Z.eqb_refl. unfold_shop. rewrite ?Hstop.
    eexists. split; [reflexivity|]. split; [reflexivity|].
    unfold_shop. repeat split; reflexivity.
  - intros Hstop. split.
    + unfold barber_holds in Hhold. unfold in_chair.
      destruct (barber c); simpl; rewrite Hhold; simpl; lia.
    + intros acts' evs' c' Hrun'.
      destruct (shutdown_run _ _ _ _ Hrun' Hstop) as (H1 & H2).
      split; [exact H1|].
      assert (0 <= in_chair (shop c')).
      { unfold in_chair. destruct (current_customer (shop c')); lia. }
      lia.
  - intros Hpc acts' evs' c' Hrun'.
    exact (barber_gone_run _ _ _ _ Hrun' Hpc).
Qed.

Lemma conservation_with_queue_and_chair_witness :
  let c := final sched_shutdown_mid_cut main_init in
  let evs := trace sched_shutdown_mid_cut main_init in
  let d := final sched_shutdown_after_loop_test main_init in
  let evd := trace sched_shutdown_after_loop_test main_init in
  (run sched_shutdown_mid_cut (shop_init 5 (8 # 5)) = Some (evs, c) /\
   served (shop c) + left (shop c) + len (waiting (shop c)) + in_chair (shop c)
     = decided (threads c) /\
   barber c = BCut 1 (8 # 5) /\ stop_event c = true /\
   exists c',
     run [ActBarber 2; ActBarber 2] c = Some ([EvTau; EvServed 1], c') /\
     served (shop c') = served (shop c) + 1) /\
  (run sched_shutdown_after_loop_test (shop_init 5 (8 # 5)) = Some (evd, d) /\
   barber d = BAcquire /\ customers_sem d = 2%nat /\ stop_event d = true /\
   waiting (shop d) = [1; 2] /\
   exists d',
     run [ActBarber 2; ActBarber 2; ActBarber 2; ActBarber 2; ActBarber 2] d
       = Some ([EvTau; EvDequeue 1; EvTau; EvServed 1; EvTau], d') /\
     served (shop d') = served (shop d) + 1 /\
     waiting (shop d') = [2] /\ barber d' = BExit).
Proof.
  intros c evs d evd. split.
  - assert (Hrun : run sched_shutdown_mid_cut (shop_init 5 (8 # 5))
                   = Some (evs, c)) by (vm_compute; reflexivity).
    pose proof (conservation_with_queue_and_chair 5 (8 # 5) _ _ _ Hrun)
      as (Hsum & _ & _ & _ & _ & _ & _ & _ & _ & Hcut & _).
    assert (Hpc : barber c = BCut 1 (8 # 5)) by (vm_compute; reflexivity).
    assert (Hstop : stop_event c = true) by (vm_compute; reflexivity).
    split; [exact Hrun|]. split; [exact Hsum|].
    split; [exact Hpc|]. split; [exact Hstop|].
    destruct (Hcut 1 (8 # 5)%Q 2%Q Hpc Hstop) as (c' & Hr & Hs & _).
    exists c'. split; [exact Hr | exact Hs].
  - assert (Hrun : run sched_shutdown_after_loop_test (shop_init 5 (8 # 5))
                   = Some (evd, d)) by (vm_compute; reflexivity).
    pose proof (conservation_with_queue_and_chair 5 (8 # 5) _ _ _ Hrun)
      as (_ & _ & _ & _ & _ & _ & _ & _ & _ & _ & _ & Hacq & _).
    assert (Hpc : barber d = BAcquire) by (vm_compute; reflexivity).
    assert (Hsem : customers_sem d = 2%nat) by (vm_compute; reflexivity).
    assert (Hstop : stop_event d = true) by (vm_compute; reflexivity).
    assert (Hw : waiting (shop d) = [1; 2]) by (vm_compute; reflexivity).
    split; [exact Hrun|]. split; [exact Hpc|]. split; [exact Hsem|].
    split; [exact Hstop|]. split; [exact Hw|].
    destruct (Hacq 1%nat 2%Q Hpc Hsem Hstop)
      as (x & rest & d' & Hq & Hr & Hs & Hrest & _ & Hexit).
    rewrite Hw in Hq. injection Hq as <- <-.
    exists d'. split; [exact Hr|]. split; [exact Hs|].
    split; [exact Hrest | exact Hexit].
Defined.

(** C4, as stated, fails.  When the barber completes a haircut while another
    customer is waiting, the completion block clears [current_customer] and
    sets the status to cutting; the lock is then released, and the next
    pickup comes only later. *)
Lemma cutting_with_empty_chair :
  let c := final sched_first_haircut main_init in
  reachable 5 (8 # 5) c /\
  barber_status (shop c) = "cutting"%string /\
  current_customer (shop c) = None /\
  barber c = BLoop.
Proof.
  intros c. split.
  - exists sched_first_haircut, (trace sched_first_haircut main_init).
    vm_compute. reflexivity.
  - split; [vm_compute; reflexivity|].
    split; vm_compute; reflexivity.
Qed.

(** C4, amended: in every reachable configuration, that is whenever the lock
    is free, a current customer implies that the status is cutting, and so a
    sleeping barber has nobody in the chair; the status is always one of
    sleeping and cutting.  The pickup block sets the status and the current
    customer together.  The converse is not claimed: after a completion with
    a non-empty queue the status is cutting with an empty chair. *)
Theorem chair_occupied_implies_cutting :
  (forall cap ct c,
      reachable cap ct c ->
      (current_customer (shop c) <> None ->
       barber_status (shop c) = "cutting"%string) /\
      (barber_status (shop c) = "sleeping"%string ->
       current_customer (shop c) = None) /\
      (barber_status (shop c) = "sleeping"%string \/
       barber_status (shop c) = "cutting"%string)) /\
  (forall now s x rest,
      waiting s = x :: rest ->
      let s' := fst (fst (barber_pickup now s)) in
      barber_status s' = "cutting"%string /\ current_customer s' = Some x /\
      waiting s' = rest) /\
  (forall x s,
      current_customer s = Some x -> waiting s <> [] ->
      barber_status (barber_finish x s) = "cutting"%string /\
      current_customer (barber_finish x s) = None).
Proof.
  split; [|split].
  - intros cap ct c (acts & evs & Hrun).
    destruct (run_invariants _ _ _ _ _ Hrun) as (Hst & _ & _).
    destruct Hst as (_ & Hc & _ & _ & Hs).
    split; [exact Hc|]. split; [|exact Hs].
    unfold chair_implies_cutting in Hc.
    intros Hsl. destruct (current_customer (shop c)) eqn:E; [|reflexivity].
    rewrite Hc in Hsl by discriminate. discriminate.
  - intros now s x rest Hw. unfold barber_pickup. rewrite Hw. simpl. auto.
  - intros x s Hcur Hw. unfold barber_finish, is_current.
    rewrite Hcur, Z.eqb_refl. unfold_shop.
    destruct (waiting s); [congruence|]. simpl. auto.
Qed.

Lemma chair_occupied_implies_cutting_witness :
  let c := final sched_first_pickup main_init in
  (reachable 5 (8 # 5) c /\ current_customer (shop c) <> None /\
   barber_status (shop c) = "cutting"%string) /\
  (let s := shop (final sched_two_arrivals main_init) in
   waiting s = [1; 2] /\
   barber_status (fst (fst (barber_pickup 1 s))) = "cutting"%string) /\
  (current_customer (shop c) = Some 1 /\ waiting (shop c) <> [] /\
   barber_status (barber_finish 1 (shop c)) = "cutting"%string).
Proof.
  intros c.
  destruct chair_occupied_implies_cutting as (H1 & H2 & H3).
  split; [|split].
  - assert (Hr : reachable 5 (8 # 5) c).
    { exists sched_first_pickup, (trace sched_first_pickup main_init).
      vm_compute. reflexivity. }
    assert (Hc : current_customer (shop c) <> None)
      by (vm_compute; discriminate).
    split; [exact Hr|]. split; [exact Hc|].
    exact (proj1 (H1 _ _ _ Hr) Hc).
  - intros s.
    assert (Hw : waiting s = [1; 2]) by (vm_compute; reflexivity).
    split; [exact Hw|]. exact (proj1 (H2 1%Q s 1 [2] Hw)).
  - assert (Hc : current_customer (shop c) = Some 1) by (vm_compute; reflexivity).
    assert (Hw : waiting (shop c) <> []) by (vm_compute; discriminate).
    split; [exact Hc|]. split; [exact Hw|].
    exact (proj1 (H3 1 (shop c) Hc Hw)).
Defined.

(** C5: customers are served in the order of their admission.  In every
    run, if A is appended to the queue strictly before B, and both are
    dequeued (each becoming [current_customer]), then A is dequeued strictly
    before B. *)
Theorem fifo_service_order (cap : Z) (ct : Q) (acts : list action)
        (evs : list event) (c : Config) (A B : Z) (i j k l : nat) :
  run acts (shop_init cap ct) = Some (evs, c) ->
  evs !! i = Some (EvAdmit A) -> evs !! j = Some (EvAdmit B) -> (i < j)%nat ->
  evs !! k = Some (EvDequeue A) -> evs !! l = Some (EvDequeue B) ->
  (k < l)%nat.
Proof.
  intros Hrun Hi Hj Hij Hk Hl.
  destruct (run_invariants _ _ _ _ _ Hrun) as (_ & Htr & _).
  destruct Htr as (T1 & T2 & _).
  unfold admits, dequeues in *.
  pose proof (proj_position admitted_of evs i _ A Hi eq_refl) as HpA.
  pose proof (proj_position admitted_of evs j _ B Hj eq_refl) as HpB.
  pose proof (proj_position_lt admitted_of evs i j _ A Hi eq_refl Hij) as Hp.
  pose proof (proj_position dequeued_of evs k _ A Hk eq_refl) as HqA.
  pose proof (proj_position dequeued_of evs l _ B Hl eq_refl) as HqB.
  apply (lookup_app_l_Some _ (waiting (shop c))) in HqA, HqB.
  rewrite <- T1 in HqA, HqB.
  pose proof (NoDup_lookup _ _ _ _ T2 HpA HqA) as EA.
  pose proof (NoDup_lookup _ _ _ _ T2 HpB HqB) as EB.
  destruct (Nat.lt_ge_cases k l) as [Hlt | Hge]; [exact Hlt|].
  pose proof (proj_position_mono dequeued_of evs l k Hge). lia.
Qed.

Lemma fifo_service_order_witness :
  let evs := trace sched_second_pickup main_init in
  let c := final sched_second_pickup main_init in
  run sched_second_pickup (shop_init 5 (8 # 5)) = Some (evs, c) /\
  evs !! 7%nat = Some (EvAdmit 1) /\ evs !! 9%nat = Some (EvAdmit 2) /\
  (7 < 9)%nat /\
  evs !! 13%nat = Some (EvDequeue 1) /\ evs !! 50%nat = Some (EvDequeue 2) /\
  (13 < 50)%nat.
Proof.
  intros evs c.
  assert (Hrun : run sched_second_pickup (shop_init 5 (8 # 5)) = Some (evs, c))
    by (vm_compute; reflexivity).
  assert (Hi : evs !! 7%nat = Some (EvAdmit 1)) by (vm_compute; reflexivity).
  assert (Hj : evs !! 9%nat = Some (EvAdmit 2)) by (vm_compute; reflexivity).
  assert (Hij : (7 < 9)%nat) by lia.
  assert (Hk : evs !! 13%nat = Some (EvDequeue 1)) by (vm_compute; reflexivity).
  assert (Hl : evs !! 50%nat = Some (EvDequeue 2)) by (vm_compute; reflexivity).
  split; [exact Hrun|]. split; [exact Hi|]. split; [exact Hj|].
  split; [exact Hij|]. split; [exact Hk|]. split; [exact Hl|].
  exact (fifo_service_order 5 (8 # 5) _ evs c 1 2 7 9 13 50
                            Hrun Hi Hj Hij Hk Hl).
Defined.
(** * Speed, stop event and display invariants *)

Lemma interval_in_table (s : ShopState) :
  1 <= arrival_speed s <= 5 ->
  (arrival_speed s, interval_of s) ∈ speed_to_interval.
Proof.
  intros H. unfold interval_of.
  assert (arrival_speed s = 1 \/ arrival_speed s = 2 \/ arrival_speed s = 3 \/
          arrival_speed s = 4 \/ arrival_speed s = 5) as Hc by lia.
  destruct Hc as [-> | [-> | [-> | [-> | ->]]]]; simpl;
    unfold speed_to_interval; repeat constructor.
Qed.

Lemma display_inv_init (cap : Z) (ct : Q) : display_inv (shop_init cap ct).
Proof.
  unfold display_inv, speed_inv, ui_inv, chair_clock_inv. simpl.
  repeat split; auto; lia.
Qed.

Lemma display_inv_step (a : action) (c c' : Config) (e : event) :
  display_inv c -> step a c = Some (e, c') -> display_inv c'.
Proof.
  intros Hinv Hs.
  destruct c as [s cs bs stop b g ui ths].
  destruct s as [cap ct sp w sv lf st cur t0].
  destruct g as [pc cnt ne].
  unfold display_inv, speed_inv, ui_inv, chair_clock_inv in *.
  simpl in *. destruct Hinv as ((Hsp & Hpace) & Hui & Hc1 & Hc2).
  destruct a as [now|i|now|ch]; simpl in Hs.
  - unfold barber_step, barber_pickup, barber_timeout, barber_finish in Hs.
    unfold_shop. break_step Hs; unfold_shop; finish_case.
  - unfold customer_step, customer_enter in Hs. unfold_shop.
    break_step Hs; unfold_shop; finish_case.
  - unfold generator_step in Hs. unfold_shop.
    break_step Hs; unfold_shop; finish_case.
    exists sp.
    apply (interval_in_table (mkShopState cap ct sp w sv lf st cur t0)).
    simpl. lia.
  - unfold key_step in Hs. unfold_shop.
    break_step Hs; unfold_shop; finish_case.
    all: repeat match goal with
           | H : _ && _ = true |- _ => apply andb_true_iff in H as [? ?]
           | H : (_ <=? _) = true |- _ => apply Z.leb_le in H
           end; lia.
Qed.

Lemma run_display_inv (cap : Z) (ct : Q) (acts : list action)
      (evs : list event) (c : Config) :
  run acts (shop_init cap ct) = Some (evs, c) -> display_inv c.
Proof.
  apply (run_ind (fun _ c => display_inv c)).
  - apply display_inv_init.
  - intros evs0 c0 a e c' Hinv Hs. eapply display_inv_step; eauto.
Qed.

Lemma stop_event_step (a : action) (c c' : Config) (e : event) :
  step a c = Some (e, c') ->
  (stop_event c = true -> stop_event c' = true) /\
  (stop_event c = false -> stop_event c' = true ->
   a = ActKey 113 \/ a = ActKey 81).
Proof.
  intros Hs.
  destruct c as [s cs bs stop b g ui ths].
  destruct s as [cap ct sp w sv lf st cur t0].
  destruct g as [pc cnt ne].
  simpl in *.
  destruct a as [now|i|now|ch]; simpl in Hs.
  - unfold barber_step, barber_pickup, barber_timeout, barber_finish in Hs.
    unfold_shop. break_step Hs; unfold_shop; split; congruence.
  - unfold customer_step, customer_enter in Hs. unfold_shop.
    break_step Hs; unfold_shop; split; congruence.
  - unfold generator_step in Hs. unfold_shop.
    break_step Hs; unfold_shop; split; congruence.
  - unfold key_step in Hs. unfold_shop.
    break_step Hs; unfold_shop; split; try congruence.
    intros _ _.
    match goal with
    | H : _ || _ = true |- _ =>
        apply orb_true_iff in H as [H | H]; apply Z.eqb_eq in H; subst; auto
    end.
Qed.

Lemma stop_event_run (acts : list action) (c c' : Config) (evs : list event) :
  run acts c = Some (evs, c') -> stop_event c = true -> stop_event c' = true.
Proof.
  revert c evs. induction acts as [|a acts IH]; intros c evs Hrun Hstop;
    simpl in Hrun.
  - injection Hrun as <- <-. exact Hstop.
  - destruct (step a c) as [[e c1]|] eqn:Hs; [|discriminate].
    destruct (run acts c1) as [[evs1 c2]|] eqn:Hr; [|discriminate].
    injection Hrun as <- <-.
    eapply IH; eauto. eapply stop_event_step; eauto.
Qed.

(** * What is left to do once the stop event is set *)

Section AfterStop.
Variable m : Config -> nat.

Lemma run_actions_bounded (p : action -> bool) :
  (forall a c e c',
      step a c = Some (e, c') -> stop_event c = true ->
      ((if p a then 1 else 0) + m c' <= m c)%nat) ->
  forall acts c evs c',
    run acts c = Some (evs, c') -> stop_event c = true ->
    (count_actions p acts + m c' <= m c)%nat.
Proof.
  intros Hstep acts. unfold count_actions.
  induction acts as [|a acts IH]; intros c evs c' Hrun Hstop; simpl in Hrun.
  - injection Hrun as <- <-. simpl. lia.
  - destruct (step a c) as [[e c1]|] eqn:Hs; [|discriminate].
    destruct (run acts c1) as [[evs1 c2]|] eqn:Hr; [|discriminate].
    injection Hrun as <- <-.
    pose proof (Hstep _ _ _ _ Hs Hstop) as H1.
    pose proof (proj1 (stop_event_step _ _ _ _ Hs) Hstop) as Hstop1.
    pose proof (IH _ _ _ Hr Hstop1) as H2.
    revert H1. simpl. destruct (p a); simpl; intros; lia.
Qed.

Lemma run_events_bounded (f : event -> option Z) :
  (forall a c e c',
      step a c = Some (e, c') -> stop_event c = true ->
      ((match f e with Some _ => 1 | None => 0 end) + m c' <= m c)%nat) ->
  forall acts c evs c',
    run acts c = Some (evs, c') -> stop_event c = true ->
    (length (omap f evs) + m c' <= m c)%nat.
Proof.
  intros Hstep acts.
  induction acts as [|a acts IH]; intros c evs c' Hrun Hstop; simpl in Hrun.
  - injection Hrun as <- <-. simpl. lia.
  - destruct (step a c) as [[e c1]|] eqn:Hs; [|discriminate].
    destruct (run acts c1) as [[evs1 c2]|] eqn:Hr; [|discriminate].
    injection Hrun as <- <-.
    pose proof (Hstep _ _ _ _ Hs Hstop) as H1.
    pose proof (proj1 (stop_event_step _ _ _ _ Hs) Hstop) as Hstop1.
    pose proof (IH _ _ _ Hr Hstop1) as H2.
    revert H1. cbn. destruct (f e); cbn; intros; lia.
Qed.
End AfterStop.

Lemma barber_rank_step (a : action) (c c' : Config) (e : event) :
  step a c = Some (e, c') -> stop_event c = true ->
  ((if is_barber_action a then 1 else 0) + barber_rank (barber c')
   <= barber_rank (barber c))%nat /\
  ((match dequeued_of e with Some _ => 1 | None => 0 end)
   + dequeue_budget (barber c') <= dequeue_budget (barber c))%nat.
Proof.
  intros Hs Hstop.
  destruct c as [s cs bs stop b g ui ths].
  destruct s as [cap ct sp w sv lf st cur t0].
  destruct g as [pc cnt ne].
  simpl in *. subst stop.
  destruct a as [now|i|now|ch]; simpl in Hs.
  - unfold barber_step, barber_pickup, barber_timeout, barber_finish in Hs.
    unfold_shop. rewrite ?andb_false_r in Hs.
    break_step Hs; unfold_shop; subst; simpl; lia.
  - unfold customer_step, customer_enter in Hs. unfold_shop.
    break_step Hs; unfold_shop; simpl; lia.
  - unfold generator_step in Hs. unfold_shop.
    break_step Hs; unfold_shop; simpl; lia.
  - unfold key_step in Hs. unfold_shop.
    break_step Hs; unfold_shop; simpl; lia.
Qed.


Lemma customer_rank_step (i : nat) (a : action) (c c' : Config) (e : event) :
  step a c = Some (e, c') -> stop_event c = true ->
  ((if is_customer_action i a then 1 else 0) + customer_rank_at c' i
   <= customer_rank_at c i)%nat.
Proof.
  intros Hs Hstop.
  destruct c as [s cs bs stop b g ui ths].
  destruct s as [cap ct sp w sv lf st cur t0].
  destruct g as [pc cnt ne].
  unfold customer_rank_at. simpl in *. subst stop.
  destruct a as [now|j|now|ch]; simpl in Hs.
  - unfold barber_step, barber_pickup, barber_timeout, barber_finish in Hs.
    unfold_shop.
    break_step Hs; unfold_shop; subst; simpl; lia.
  - unfold customer_step, customer_enter in Hs. unfold_shop.
    destruct (Nat.eqb_spec i j) as [->|Hne].
    + break_step Hs; unfold_shop.
      all: rewrite list_lookup_insert_eq by (eapply lookup_lt_Some; eauto).
      all: simpl; lia.
    + break_step Hs; unfold_shop.
      all: rewrite list_lookup_insert_ne by congruence.
      all: lia.
  - unfold generator_step in Hs. unfold_shop.
    break_step Hs; unfold_shop; subst; simpl; try lia.
    destruct (ths !! i) as [th|] eqn:Hi.
    + rewrite (lookup_app_l_Some _ _ _ _ Hi). lia.
    + destruct ((ths ++ [mkCustomerThread cnt CEnter]) !! i) as [th|] eqn:Hi';
        [|lia].
      apply lookup_snoc_Some in Hi' as [(_ & Hi') | (_ & <-)];
        [congruence | simpl; lia].
  - unfold key_step in Hs. unfold_shop.
    break_step Hs; unfold_shop; simpl; lia.
Qed.

(** * Spawns, completions and the ready semaphore *)

Lemma map_cid_insert (ths : list CustomerThread) (i : nat)
      (th : CustomerThread) (pc : customer_pc) :
  ths !! i = Some th ->
  map cid (<[i := mkCustomerThread (cid th) pc]> ths) = map cid ths.
Proof.
  revert i. induction ths as [|x l IH]; intros [|i] H; simpl in *;
    try discriminate.
  - injection H as ->. reflexivity.
  - f_equal. apply IH. exact H.
Qed.

Lemma handshake_inv_init (cap : Z) (ct : Q) :
  handshake_inv [] (shop_init cap ct).
Proof.
  unfold handshake_inv, returned, len. simpl.
  repeat split; try lia; try reflexivity. discriminate.
Qed.

Lemma handshake_inv_step (a : action) (c c' : Config) (e : event)
      (evs : list event) :
  handshake_inv evs c -> step a c = Some (e, c') ->
  handshake_inv (evs ++ [e]) c'.
Proof.
  intros (H1 & H2 & H3 & H4 & H5) Hs.
  unfold handshake_inv, spawns, completions, dequeues, rejects, returned in *.
  rewrite !proj_snoc.
  destruct c as [s cs bs stop b g ui ths].
  destruct s as [cap ct sp w sv lf st cur t0].
  destruct g as [pc cnt ne].
  simpl in *.
  destruct a as [now|i|now|ch]; simpl in Hs.
  - unfold barber_step, barber_pickup, barber_timeout, barber_finish in Hs.
    unfold_shop.
    break_step Hs; unfold_shop; subst; rewrite ?app_nil_r in *.
    all: unfold len in *; rewrite ?length_app; simpl.
    all: repeat split; try assumption; try lia.
    all: try (intros x Hx; apply elem_of_app; left; auto; fail).
    all: try (intros Hst; specialize (H5 Hst); lia).
    all: try discriminate.
    intros x [= <-]. apply elem_of_app. right.
    apply list_elem_of_singleton. reflexivity.
  - unfold customer_step, customer_enter in Hs. unfold_shop.
    break_step Hs; unfold_shop; subst; rewrite ?app_nil_r in *.
    all: rewrite ?map_cid_insert by assumption.
    all: erewrite count_threads_insert by eassumption.
    all: unfold customer_finished in *; simpl.
    all: match goal with H : cpc _ = _ |- _ => rewrite H end.
    all: unfold len in *; rewrite ?length_app; simpl.
    all: repeat split; try assumption; try lia.
    all: try (intros Hst; specialize (H5 Hst); lia).
    all: try discriminate.
  - unfold generator_step in Hs. unfold_shop.
    break_step Hs; unfold_shop; subst; rewrite ?app_nil_r in *.
    all: rewrite ?map_app, ?count_threads_app; simpl.
    all: unfold len in *; rewrite ?length_app; simpl.
    all: repeat split; try assumption; try lia; try congruence.
    all: try (intros Hst; specialize (H5 Hst); lia).
  - unfold key_step in Hs. unfold_shop.
    break_step Hs; unfold_shop; subst; rewrite ?app_nil_r in *.
    all: repeat split; try assumption; try lia; try discriminate.
Qed.

Lemma run_handshake_inv (cap : Z) (ct : Q) (acts : list action)
      (evs : list event) (c : Config) :
  run acts (shop_init cap ct) = Some (evs, c) -> handshake_inv evs c.
Proof.
  apply (run_ind handshake_inv).
  - apply handshake_inv_init.
  - intros evs0 c0 a e c' Hinv Hs. eapply handshake_inv_step; eauto.
Qed.

(** * Further properties of the protocol *)

(** X1: the arrival speed is always one of the five levels 1 to 5: it starts
    at 3 and only the keys [1] to [5] assign it, each its own digit.  So the
    generator's lookup always finds the speed in the table, the fallback of
    [speed_to_interval.get(speed, 0.6)] is never used, and an interval the
    generator is pacing with is one of the table's. *)
Theorem arrival_speed_in_table (cap : Z) (ct : Q) (c : Config) :
  reachable cap ct c ->
  1 <= arrival_speed (shop c) <= 5 /\
  (arrival_speed (shop c), interval_of (shop c)) ∈ speed_to_interval /\
  (forall interval,
      gpc (generator c) = GPace interval ->
      exists k, (k, interval) ∈ speed_to_interval).
Proof.
  intros (acts & evs & Hrun).
  destruct (run_display_inv _ _ _ _ _ Hrun) as ((Hsp & Hpace) & _ & _).
  split; [exact Hsp|]. split; [apply interval_in_table; exact Hsp|].
  intros interval Hpc. rewrite Hpc in Hpace. exact Hpace.
Qed.

Lemma arrival_speed_in_table_witness :
  let c := final [ActKey 53; ActKey 120; ActKey (-1)] main_init in
  reachable 5 (8 # 5) c /\
  arrival_speed (shop c) = 5 /\
  1 <= arrival_speed (shop c) <= 5 /\
  (arrival_speed (shop c), interval_of (shop c)) ∈ speed_to_interval.
Proof.
  intros c.
  assert (Hr : reachable 5 (8 # 5) c).
  { exists [ActKey 53; ActKey 120; ActKey (-1)],
      (trace [ActKey 53; ActKey 120; ActKey (-1)] main_init).
    vm_compute. reflexivity. }
  split; [exact Hr|]. split; [reflexivity|].
  destruct (arrival_speed_in_table 5 (8 # 5) c Hr) as (H1 & H2 & _).
  split; [exact H1 | exact H2].
Defined.

(** X2: the stop event is a latch.  Once set it stays set along every run;
    the only actions that set it are the keys [q] and [Q]; and in every
    reachable configuration it is set exactly when the curses loop has
    ended, so no key is read after shutdown. *)
Theorem stop_event_latched :
  (forall acts c evs c',
      run acts c = Some (evs, c') -> stop_event c = true ->
      stop_event c' = true) /\
  (forall a c e c',
      step a c = Some (e, c') -> stop_event c = false ->
      stop_event c' = true -> a = ActKey 113 \/ a = ActKey 81) /\
  (forall cap ct c,
      reachable cap ct c ->
      ui_running c = negb (stop_event c) /\
      (stop_event c = true -> forall ch, step (ActKey ch) c = None)).
Proof.
  split; [|split].
  - intros acts c evs c'. apply stop_event_run.
  - intros a c e c' Hs. apply (stop_event_step _ _ _ _ Hs).
  - intros cap ct c (acts & evs & Hrun).
    destruct (run_display_inv _ _ _ _ _ Hrun) as (_ & Hui & _).
    unfold ui_inv in Hui. split; [exact Hui|].
    intros Hstop ch. simpl. unfold key_step. rewrite Hui, Hstop. reflexivity.
Qed.

Lemma stop_event_latched_witness :
  let c := final [ActKey 81] main_init in
  let c' := final [ActBarber 1; ActGenerator 1] c in
  (run [ActBarber 1; ActGenerator 1] c
     = Some (trace [ActBarber 1; ActGenerator 1] c, c') /\
   stop_event c = true /\ stop_event c' = true) /\
  (step (ActKey 81) main_init = Some (EvTau, c) /\
   stop_event main_init = false /\ stop_event c = true /\
   (ActKey 81 = ActKey 113 \/ ActKey 81 = ActKey 81)) /\
  (reachable 5 (8 # 5) c /\ ui_running c = negb (stop_event c) /\
   step (ActKey 49) c = None).
Proof.
  intros c c'.
  destruct stop_event_latched as (H1 & H2 & H3).
  assert (Hrun : run [ActBarber 1; ActGenerator 1] c
                 = Some (trace [ActBarber 1; ActGenerator 1] c, c'))
    by (vm_compute; reflexivity).
  assert (Hstop : stop_event c = true) by reflexivity.
  assert (Hs : step (ActKey 81) main_init = Some (EvTau, c)) by reflexivity.
  assert (Hr : reachable 5 (8 # 5) c).
  { exists [ActKey 81], [EvTau]. vm_compute. reflexivity. }
  split; [|split].
  - split; [exact Hrun|]. split; [exact Hstop|].
    exact (H1 _ _ _ _ Hrun Hstop).
  - split; [exact Hs|]. split; [reflexivity|]. split; [exact Hstop|].
    exact (H2 _ _ _ _ Hs eq_refl Hstop).
  - split; [exact Hr|]. destruct (H3 _ _ _ Hr) as (Hui & Hno).
    split; [exact Hui|]. exact (Hno Hstop 49).
Defined.

(** X3: once the stop event is set the barber returns after at most five
    more actions of its own, whatever the other threads do in between, and
    it is never blocked on the way (its semaphore wait has a timeout); it
    dequeues at most one more customer, and only if it was already at the
    acquire or at the pickup. *)
Theorem barber_returns_after_stop (acts : list action) (c c' : Config)
        (evs : list event) :
  run acts c = Some (evs, c') -> stop_event c = true ->
  (count_actions is_barber_action acts + barber_rank (barber c')
   <= barber_rank (barber c) <= 5)%nat /\
  (length (dequeues evs) + dequeue_budget (barber c')
   <= dequeue_budget (barber c) <= 1)%nat /\
  (barber_rank (barber c') = 0%nat -> barber c' = BExit) /\
  (forall now, barber c' <> BExit ->
               exists e c'', step (ActBarber now) c' = Some (e, c'')).
Proof.
  intros Hrun Hstop.
  split; [|split; [|split]].
  - split.
    + apply (run_actions_bounded (fun c => barber_rank (barber c))
               is_barber_action) with (evs := evs); auto.
      intros a c0 e c1 Hs Hst. apply (barber_rank_step _ _ _ _ Hs Hst).
    + destruct (barber c); simpl; lia.
  - split.
    + apply (run_events_bounded (fun c => dequeue_budget (barber c))
               dequeued_of) with (acts := acts) (evs := evs); auto.
      intros a c0 e c1 Hs Hst. apply (barber_rank_step _ _ _ _ Hs Hst).
    + destruct (barber c); simpl; lia.
  - destruct (barber c'); simpl; intros H; try discriminate; reflexivity.
  - intros now Hne. simpl. unfold barber_step.
    destruct (barber c') eqn:Hb; try (eexists; eexists; reflexivity).
    + destruct (customers_sem c'); eexists; eexists; reflexivity.
    + destruct (barber_pickup now (shop c')) as [[s' [x|]] r];
        eexists; eexists; reflexivity.
    + destruct (Qlt_bool 0 remaining && negb (stop_event c'));
        eexists; eexists; reflexivity.
    + congruence.
Qed.

Lemma barber_returns_after_stop_witness :
  let c := final sched_shutdown_mid_cut main_init in
  let acts := [ActBarber 2; ActCustomer 0; ActBarber 2; ActBarber 2]%nat in
  run acts c = Some (trace acts c, final acts c) /\
  stop_event c = true /\
  barber c = BCut 1 (8 # 5) /\
  (count_actions is_barber_action acts + barber_rank (barber (final acts c))
   <= barber_rank (barber c) <= 5)%nat /\
  barber (final acts c) = BExit.
Proof.
  intros c acts.
  assert (Hrun : run acts c = Some (trace acts c, final acts c))
    by (vm_compute; reflexivity).
  assert (Hstop : stop_event c = true) by (vm_compute; reflexivity).
  split; [exact Hrun|]. split; [exact Hstop|].
  split; [vm_compute; reflexivity|].
  split; [exact (proj1 (barber_returns_after_stop _ _ _ _ Hrun Hstop))|].
  vm_compute. reflexivity.
Defined.

(** X4: once the stop event is set every customer thread returns after at
    most three more actions of its own, whether it was entering, announcing
    itself or waiting for the barber, and also if it is started only after
    the shutdown.  It is never blocked on the way: its wait on [barber_sem]
    has a timeout, so a customer that has not returned can always take its
    next action, with or without a unit on the semaphore. *)
Theorem customer_returns_after_stop (i : nat) (acts : list action)
        (c c' : Config) (evs : list event) :
  run acts c = Some (evs, c') -> stop_event c = true ->
  (count_actions (is_customer_action i) acts + customer_rank_at c' i
   <= customer_rank_at c i <= 3)%nat /\
  (forall th, threads c' !! i = Some th ->
              customer_rank (cpc th) = 0%nat -> cpc th = CDone) /\
  (forall th, threads c' !! i = Some th -> cpc th <> CDone ->
              exists e c'', step (ActCustomer i) c' = Some (e, c'')) /\
  (forall th, threads c' !! i = Some th -> cpc th = CAcquire ->
              barber_sem c' = 0%nat ->
              exists c1 c2,
                run [ActCustomer i; ActCustomer i] c' = Some ([EvTau; EvTau], c2)
                /\ step (ActCustomer i) c' = Some (EvTau, c1)
                /\ threads c2 !! i = Some (mkCustomerThread (cid th) CDone)).
Proof.
  intros Hrun Hstop. split; [split|split; [|split]].
  - apply (run_actions_bounded (fun c => customer_rank_at c i)
             (is_customer_action i)) with (evs := evs); auto.
    intros a c0 e c1 Hs Hst. apply (customer_rank_step _ _ _ _ _ Hs Hst).
  - unfold customer_rank_at. destruct (threads c !! i) as [th|]; [|lia].
    destruct (cpc th); simpl; lia.
  - intros th _. destruct (cpc th); simpl; intros H; try discriminate.
    reflexivity.
  - intros th Hi Hne. simpl. unfold customer_step. rewrite Hi.
    destruct (cpc th) eqn:Hpc; try (eexists; eexists; reflexivity).
    + destruct (customer_enter (cid th) (shop c')) as [s' [|]];
        eexists; eexists; reflexivity.
    + destruct (barber_sem c'); eexists; eexists; reflexivity.
    + congruence.
  - intros th Hi Hpc Hsem.
    pose proof (stop_event_run _ _ _ _ Hrun Hstop) as Hstop'.
    assert (Hlt : (i < length (threads c'))%nat)
      by (eapply lookup_lt_Some; eauto).
    eexists. eexists. simpl. unfold customer_step.
    rewrite Hi, Hpc, Hsem. simpl.
    rewrite list_lookup_insert_eq by exact Hlt. simpl.
    rewrite Hstop'. split; [reflexivity|]. split; [reflexivity|].
    simpl. rewrite list_lookup_insert_eq; [reflexivity|].
    rewrite length_insert. exact Hlt.
Qed.

Lemma customer_returns_after_stop_witness :
  let c := final sched_shutdown_mid_cut main_init in
  let acts := [ActCustomer 1; ActBarber 2; ActCustomer 0]%nat in
  let c0 := final (sched_two_arrivals ++ [ActCustomer 0; ActKey 113]) main_init in
  (run acts c = Some (trace acts c, final acts c) /\
   stop_event c = true /\
   (count_actions (is_customer_action 1) acts
    + customer_rank_at (final acts c) 1
    <= customer_rank_at c 1 <= 3)%nat /\
   threads (final acts c) !! 1%nat = Some (mkCustomerThread 2 CDone) /\
   waiting (shop (final acts c)) = [2]) /\
  (run [] c0 = Some ([], c0) /\ stop_event c0 = true /\
   threads c0 !! 0%nat = Some (mkCustomerThread 1 CAcquire) /\
   barber_sem c0 = 0%nat /\
   exists c1 c2,
     run [ActCustomer 0; ActCustomer 0]%nat c0 = Some ([EvTau; EvTau], c2) /\
     step (ActCustomer 0) c0 = Some (EvTau, c1) /\
     threads c2 !! 0%nat = Some (mkCustomerThread 1 CDone)).
Proof.
  intros c acts c0. split.
  - assert (Hrun : run acts c = Some (trace acts c, final acts c))
      by (vm_compute; reflexivity).
    assert (Hstop : stop_event c = true) by (vm_compute; reflexivity).
    split; [exact Hrun|]. split; [exact Hstop|].
    split; [exact (proj1 (customer_returns_after_stop 1 _ _ _ _ Hrun Hstop))|].
    split; vm_compute; reflexivity.
  - assert (Hrun : run [] c0 = Some ([], c0)) by reflexivity.
    assert (Hstop : stop_event c0 = true) by (vm_compute; reflexivity).
    assert (Hi : threads c0 !! 0%nat = Some (mkCustomerThread 1 CAcquire))
      by (vm_compute; reflexivity).
    assert (Hsem : barber_sem c0 = 0%nat) by (vm_compute; reflexivity).
    split; [exact Hrun|]. split; [exact Hstop|]. split; [exact Hi|].
    split; [exact Hsem|].
    destruct (customer_returns_after_stop 0 _ _ _ _ Hrun Hstop)
      as (_ & _ & _ & Hwait).
    exact (Hwait _ Hi eq_refl Hsem).
Defined.



(** X6: customer ids are handed out in spawn order, 1, 2, 3, ...: the thread
    started as number [i] (counting from 0) carries id [i + 1], the ids of
    the started threads are exactly the ids spawned, they are pairwise
    different, and the generator's counter is one more than their number. *)
Theorem customer_ids_sequential (cap : Z) (ct : Q) (acts : list action)
        (evs : list event) (c : Config) :
  run acts (shop_init cap ct) = Some (evs, c) ->
  spawns evs = map cid (threads c) /\
  (forall i x, spawns evs !! i = Some x -> x = Z.of_nat i + 1) /\
  NoDup (spawns evs) /\
  (gpc (generator c) <> GInit ->
   counter (generator c) = Z.of_nat (length (spawns evs)) + 1).
Proof.
  intros Hrun.
  destruct (run_invariants _ _ _ _ _ Hrun) as (Hst & _ & _).
  destruct Hst as (_ & _ & (Hid & _ & Hcnt) & _).
  destruct (run_handshake_inv _ _ _ _ _ Hrun) as (Hsp & _).
  assert (Hpos : forall i x, spawns evs !! i = Some x -> x = Z.of_nat i + 1).
  { intros i x Hi. rewrite Hsp, list_lookup_fmap in Hi.
    destruct (threads c !! i) as [th|] eqn:E; [|discriminate].
    injection Hi as <-. eauto. }
  split; [exact Hsp|]. split; [exact Hpos|]. split.
  - apply NoDup_alt. intros i j x Hi Hj.
    apply Hpos in Hi, Hj. lia.
  - intros Hne. rewrite Hsp, length_map. auto.
Qed.

Lemma customer_ids_sequential_witness :
  let evs := trace sched_two_arrivals main_init in
  let c := final sched_two_arrivals main_init in
  run sched_two_arrivals (shop_init 5 (8 # 5)) = Some (evs, c) /\
  spawns evs = map cid (threads c) /\ spawns evs = [1; 2] /\
  counter (generator c) = 3.
Proof.
  intros evs c.
  assert (Hrun : run sched_two_arrivals (shop_init 5 (8 # 5)) = Some (evs, c))
    by (vm_compute; reflexivity).
  split; [exact Hrun|].
  split; [exact (proj1 (customer_ids_sequential _ _ _ _ _ Hrun))|].
  split; vm_compute; reflexivity.
Defined.

(** X7: the ready semaphore accounts for the customers that have left.  As
    long as the stop event is clear, the number of customer threads that
    have returned plus the units still on [barber_sem] equals the number of
    customers dequeued plus the number rejected: a customer gets past its
    wait only by taking the unit of one dequeue.  After a shutdown waiting
    customers return without a unit, and only the inequality remains. *)
Theorem ready_signal_accounting (cap : Z) (ct : Q) (acts : list action)
        (evs : list event) (c : Config) :
  run acts (shop_init cap ct) = Some (evs, c) ->
  len (dequeues evs) + len (rejects evs)
    <= returned (threads c) + Z.of_nat (barber_sem c) /\
  (stop_event c = false ->
   returned (threads c) + Z.of_nat (barber_sem c)
     = len (dequeues evs) + len (rejects evs)).
Proof.
  intros Hrun.
  destruct (run_handshake_inv _ _ _ _ _ Hrun) as (_ & _ & _ & H4 & H5).
  split; assumption.
Qed.

Lemma ready_signal_accounting_witness :
  let evs := trace sched_first_pickup main_init in
  let c := final sched_first_pickup main_init in
  run sched_first_pickup (shop_init 5 (8 # 5)) = Some (evs, c) /\
  stop_event c = false /\
  returned (threads c) + Z.of_nat (barber_sem c)
    = len (dequeues evs) + len (rejects evs) /\
  barber_sem c = 1%nat /\ dequeues evs = [1].
Proof.
  intros evs c.
  assert (Hrun : run sched_first_pickup (shop_init 5 (8 # 5)) = Some (evs, c))
    by (vm_compute; reflexivity).
  assert (Hstop : stop_event c = false) by (vm_compute; reflexivity).
  split; [exact Hrun|]. split; [exact Hstop|].
  split; [exact (proj2 (ready_signal_accounting _ _ _ _ _ Hrun) Hstop)|].
  split; vm_compute; reflexivity.
Defined.

(** X8: the arrival semaphore counts the queue.  In every reachable
    configuration the units on [customers_sem], plus one if the barber has
    acquired a unit and not yet dequeued, plus the customers that have
    appended their id and not yet released the semaphore, add up to the
    length of the queue.  So the semaphore never exceeds the queue length,
    and the barber's pickup always finds a customer: the spurious-wakeup
    branch of lines 60-62 is never taken. *)
Theorem arrival_signal_counts_queue (cap : Z) (ct : Q) (c : Config) :
  reachable cap ct c ->
  Z.of_nat (customers_sem c)
  + (match barber c with BPickup => 1 | _ => 0 end)
  + pending (threads c)
  = len (waiting (shop c)) /\
  Z.of_nat (customers_sem c) <= len (waiting (shop c)) /\
  (barber c = BPickup ->
   forall now, exists x s',
     barber_pickup now (shop c) = (s', Some x, 1%nat) /\
     waiting (shop c) = x :: waiting s').
Proof.
  intros (acts & evs & Hrun).
  pose proof (run_sem_inv _ _ _ _ _ Hrun) as Hs.
  unfold sem_inv in Hs.
  pose proof (count_threads_bounds announcing (threads c)) as Hb.
  fold (pending (threads c)) in Hb.
  split; [exact Hs|]. split.
  - destruct (barber c); lia.
  - intros Hpc now. rewrite Hpc in Hs. unfold barber_pickup.
    destruct (waiting (shop c)) as [|x rest] eqn:Hw.
    + unfold len in Hs. simpl in Hs. lia.
    + eexists. eexists. split; reflexivity.
Qed.

Lemma arrival_signal_counts_queue_witness :
  let c := final (sched_two_arrivals ++ [ActBarber 1; ActBarber 1]) main_init in
  reachable 5 (8 # 5) c /\ barber c = BPickup /\
  customers_sem c = 1%nat /\ waiting (shop c) = [1; 2] /\
  Z.of_nat (customers_sem c) <= len (waiting (shop c)) /\
  exists x s', barber_pickup 1 (shop c) = (s', Some x, 1%nat) /\
               waiting (shop c) = x :: waiting s'.
Proof.
  intros c.
  assert (Hr : reachable 5 (8 # 5) c).
  { exists (sched_two_arrivals ++ [ActBarber 1; ActBarber 1]),
      (trace (sched_two_arrivals ++ [ActBarber 1; ActBarber 1]) main_init).
    vm_compute. reflexivity. }
  assert (Hpc : barber c = BPickup) by (vm_compute; reflexivity).
  destruct (arrival_signal_counts_queue _ _ _ Hr) as (_ & Hle & Hpick).
  split; [exact Hr|]. split; [exact Hpc|].
  split; [vm_compute; reflexivity|]. split; [vm_compute; reflexivity|].
  split; [exact Hle|]. exact (Hpick Hpc 1%Q).
Defined.

(** X9: the timeout block of lines 46-48 never changes the state of a
    running shop.  It can only write the status sleeping, and only when the
    status is not cutting; since the status is always sleeping or cutting,
    it writes sleeping over sleeping.  In particular a status left at
    cutting by a completion with a non-empty queue is not reset by it. *)
Theorem timeout_block_changes_nothing :
  (forall cap ct c, reachable cap ct c -> barber_timeout (shop c) = shop c) /\
  (forall s, barber_status s = "cutting"%string -> barber_timeout s = s) /\
  (forall s, waiting s <> [] -> barber_timeout s = s).
Proof.
  split; [|split].
  - intros cap ct c (acts & evs & Hrun).
    destruct (run_invariants _ _ _ _ _ Hrun) as (Hst & _ & _).
    destruct Hst as (_ & _ & _ & _ & [Hs | Hs]);
      unfold barber_timeout; rewrite Hs; simpl.
    + destruct (shop c) as [cap0 ct0 sp w sv lf st cur t0]. simpl in *.
      subst st. destruct (negb (nonempty w) && true); reflexivity.
    + rewrite andb_false_r. reflexivity.
  - intros s Hs. unfold barber_timeout. rewrite Hs. simpl.
    rewrite andb_false_r. reflexivity.
  - intros s Hw. unfold barber_timeout.
    destruct (waiting s); [congruence|]. reflexivity.
Qed.

Lemma timeout_block_changes_nothing_witness :
  let c := final sched_first_haircut main_init in
  (reachable 5 (8 # 5) c /\ barber_timeout (shop c) = shop c) /\
  (barber_status (shop c) = "cutting"%string /\
   current_customer (shop c) = None) /\
  (waiting (shop c) <> [] /\ barber_timeout (shop c) = shop c).
Proof.
  intros c.
  destruct timeout_block_changes_nothing as (H1 & H2 & H3).
  assert (Hr : reachable 5 (8 # 5) c).
  { exists sched_first_haircut, (trace sched_first_haircut main_init).
    vm_compute. reflexivity. }
  assert (Hw : waiting (shop c) <> []) by (vm_compute; discriminate).
  split; [|split].
  - split; [exact Hr|]. exact (H1 _ _ _ Hr).
  - split; vm_compute; reflexivity.
  - split; [exact Hw|]. exact (H3 _ Hw).
Defined.

(** X10: the queue holds no id twice, no customer is dequeued twice, the
    customer in the chair is not in the queue, and nobody in the queue has
    been dequeued before. *)
Theorem chair_customer_not_in_queue (cap : Z) (ct : Q) (acts : list action)
        (evs : list event) (c : Config) :
  run acts (shop_init cap ct) = Some (evs, c) ->
  NoDup (waiting (shop c)) /\
  NoDup (dequeues evs) /\
  (forall x, current_customer (shop c) = Some x -> x ∉ waiting (shop c)) /\
  (forall x, x ∈ waiting (shop c) -> x ∉ dequeues evs).
Proof.
  intros Hrun.
  destruct (run_invariants _ _ _ _ _ Hrun) as (_ & Htr & _).
  destruct Htr as (T1 & T2 & _).
  destruct (run_handshake_inv _ _ _ _ _ Hrun) as (_ & Hcur & _).
  rewrite T1 in T2. apply NoDup_app in T2 as (Hd & Hdisj & Hw).
  split; [exact Hw|]. split; [exact Hd|]. split.
  - intros x Hx. apply Hdisj. apply Hcur. exact Hx.
  - intros x Hx Hdq. exact (Hdisj _ Hdq Hx).
Qed.

Lemma chair_customer_not_in_queue_witness :
  let evs := trace sched_first_pickup main_init in
  let c := final sched_first_pickup main_init in
  run sched_first_pickup (shop_init 5 (8 # 5)) = Some (evs, c) /\
  current_customer (shop c) = Some 1 /\ waiting (shop c) = [2] /\
  1 ∉ waiting (shop c).
Proof.
  intros evs c.
  assert (Hrun : run sched_first_pickup (shop_init 5 (8 # 5)) = Some (evs, c))
    by (vm_compute; reflexivity).
  assert (Hcur : current_customer (shop c) = Some 1) by (vm_compute; reflexivity).
  split; [exact Hrun|]. split; [exact Hcur|].
  split; [vm_compute; reflexivity|].
  destruct (chair_customer_not_in_queue _ _ _ _ _ Hrun) as (_ & _ & H & _).
  exact (H 1 Hcur).
Defined.

(** X11: the stale-completion guard of line 73 always passes.  Whenever the
    barber reaches the completion block, [current_customer] is the id it
    picked up, so the block counts the haircut.  Hence [served] is the
    number of completed haircuts, and every dequeued customer is either
    counted in [served] or still in the chair. *)
Theorem completion_guard_always_passes (cap : Z) (ct : Q)
        (acts : list action) (evs : list event) (c : Config) :
  run acts (shop_init cap ct) = Some (evs, c) ->
  (forall x, barber c = BFinish x ->
     is_current (shop c) x = true /\
     forall now, exists c',
       step (ActBarber now) c = Some (EvServed x, c') /\
       served (shop c') = served (shop c) + 1 /\
       current_customer (shop c') = None) /\
  served (shop c) = len (completions evs) /\
  served (shop c) + in_chair (shop c) = len (dequeues evs).
Proof.
  intros Hrun.
  destruct (run_invariants _ _ _ _ _ Hrun) as (Hst & Htr & _).
  destruct Hst as (Hhold & _ & _ & Hsum & _).
  destruct Htr as (T1 & _ & _ & _ & _ & _ & _ & T8 & T9).
  destruct (run_handshake_inv _ _ _ _ _ Hrun) as (_ & _ & Hsv & _).
  split; [|split].
  - intros x Hpc. unfold barber_holds in Hhold. rewrite Hpc in Hhold.
    assert (Hcur : is_current (shop c) x = true).
    { unfold is_current. rewrite Hhold. apply Z.eqb_refl. }
    split; [exact Hcur|]. intros now. simpl. unfold barber_step.
    rewrite Hpc, Hcur. eexists. split; [reflexivity|].
    unfold barber_finish. rewrite Hcur. simpl. split; reflexivity.
  - exact Hsv.
  - assert (len (admits evs) = len (dequeues evs) + len (waiting (shop c))).
    { rewrite T1. unfold len. rewrite length_app. lia. }
    lia.
Qed.

Lemma completion_guard_always_passes_witness :
  let sched := sched_first_pickup ++ repeat (ActBarber 2) 33 in
  let evs := trace sched main_init in
  let c := final sched main_init in
  run sched (shop_init 5 (8 # 5)) = Some (evs, c) /\
  barber c = BFinish 1 /\ is_current (shop c) 1 = true /\
  served (shop c) + in_chair (shop c) = len (dequeues evs).
Proof.
  intros sched evs c.
  assert (Hrun : run sched (shop_init 5 (8 # 5)) = Some (evs, c))
    by (vm_compute; reflexivity).
  assert (Hpc : barber c = BFinish 1) by (vm_compute; reflexivity).
  destruct (completion_guard_always_passes _ _ _ _ _ Hrun) as (H1 & _ & H3).
  split; [exact Hrun|]. split; [exact Hpc|].
  split; [exact (proj1 (H1 1 Hpc))|]. exact H3.
Defined.

Lemma counters_step (a : action) (c c' : Config) (e : event) :
  step a c = Some (e, c') ->
  capacity (shop c') = capacity (shop c) /\
  cut_time (shop c') = cut_time (shop c) /\
  left (shop c') = left (shop c) + len (rejects [e]) /\
  served (shop c') = served (shop c) + len (completions [e]).
Proof.
  intros Hs.
  destruct c as [s cs bs stop b g ui ths].
  destruct s as [cap ct sp w sv lf st cur t0].
  destruct g as [pc cnt ne].
  unfold len, rejects, completions. simpl in *.
  destruct a as [now|i|now|ch]; simpl in Hs.
  - unfold barber_step, barber_pickup, barber_timeout, barber_finish in Hs.
    unfold_shop. break_step Hs; unfold_shop; repeat split; simpl; lia.
  - unfold customer_step, customer_enter in Hs. unfold_shop.
    break_step Hs; unfold_shop; repeat split; simpl; lia.
  - unfold generator_step in Hs. unfold_shop.
    break_step Hs; unfold_shop; repeat split; simpl; lia.
  - unfold key_step in Hs. unfold_shop.
    break_step Hs; unfold_shop; repeat split; simpl; lia.
Qed.

(** X12: from any configuration, reachable or not, a run leaves the
    capacity and the cut duration as they are, adds to [left] exactly the
    number of customers it rejects and to [served] exactly the number of
    haircuts it completes; so neither counter ever decreases. *)
Theorem counters_only_grow (acts : list action) (c c' : Config)
        (evs : list event) :
  run acts c = Some (evs, c') ->
  capacity (shop c') = capacity (shop c) /\
  cut_time (shop c') = cut_time (shop c) /\
  left (shop c') = left (shop c) + len (rejects evs) /\
  served (shop c') = served (shop c) + len (completions evs) /\
  left (shop c) <= left (shop c') /\ served (shop c) <= served (shop c').
Proof.
  revert c evs. induction acts as [|a acts IH]; intros c evs Hrun;
    simpl in Hrun.
  - injection Hrun as <- <-. unfold len. simpl. repeat split; lia.
  - destruct (step a c) as [[e c1]|] eqn:Hs; [|discriminate].
    destruct (run acts c1) as [[evs1 c2]|] eqn:Hr; [|discriminate].
    injection Hrun as <- <-.
    destruct (counters_step _ _ _ _ Hs) as (Hc & Ht & Hl & Hv).
    destruct (IH _ _ Hr) as (Hc' & Ht' & Hl' & Hv' & _ & _).
    assert (Hrej : len (rejects (e :: evs1))
                   = len (rejects [e]) + len (rejects evs1)).
    { change (e :: evs1) with ([e] ++ evs1). unfold rejects, len.
      rewrite omap_app, length_app. lia. }
    assert (Hcom : len (completions (e :: evs1))
                   = len (completions [e]) + len (completions evs1)).
    { change (e :: evs1) with ([e] ++ evs1). unfold completions, len.
      rewrite omap_app, length_app. lia. }
    assert (0 <= len (rejects (e :: evs1))) by (unfold len; lia).
    assert (0 <= len (completions (e :: evs1))) by (unfold len; lia).
    repeat split; try congruence; lia.
Qed.

Lemma counters_only_grow_witness :
  let c := final sched_first_enters one_chair in
  let acts := [ActCustomer 1; ActBarber 1]%nat in
  run acts c = Some (trace acts c, final acts c) /\
  left (shop (final acts c)) = left (shop c) + len (rejects (trace acts c)) /\
  rejects (trace acts c) = [2] /\ left (shop (final acts c)) = 1.
Proof.
  intros c acts.
  assert (Hrun : run acts c = Some (trace acts c, final acts c))
    by (vm_compute; reflexivity).
  destruct (counters_only_grow _ _ _ _ Hrun) as (_ & _ & Hl & _).
  split; [exact Hrun|]. split; [exact Hl|].
  split; vm_compute; reflexivity.
Defined.

(** * The display *)





Lemma string_length_append (s t : string) :
  String.length (String.append s t) = (String.length s + String.length t)%nat.
Proof. induction s as [|ch s IH]; simpl; [reflexivity | rewrite IH; reflexivity]. Qed.

Lemma str_times_length (s : string) (n : nat) :
  String.length (str_times s n) = (n * String.length s)%nat.
Proof.
  induction n as [|n IH]; simpl; [reflexivity|].
  rewrite string_length_append, IH. reflexivity.
Qed.







Lemma chairs_line_eq (cap : Z) (wl : list Z) :
  chairs_line cap wl =
  map chair_cell (take (Z.to_nat cap) wl)
  ++ repeat empty_chair (Z.to_nat cap - length wl).
Proof.
  unfold chairs_line. generalize (Z.to_nat cap) as n. clear cap.
  induction n as [|n IH]; [reflexivity|].
  rewrite seq_S, map_app, IH. simpl.
  destruct (Nat.ltb_spec n (length wl)) as [Hlt | Hge].
  - destruct (lookup_lt_is_Some_2 wl n Hlt) as [x Hx].
    rewrite (nth_lookup_Some _ _ _ _ Hx), (take_S_r _ _ _ Hx), map_app.
    replace (n - length wl)%nat with 0%nat by lia.
    replace (S n - length wl)%nat with 0%nat by lia.
    simpl. rewrite !app_nil_r. reflexivity.
  - rewrite (take_ge wl n Hge), (take_ge wl (S n)) by lia.
    replace (S n - length wl)%nat with (S (n - length wl)) by lia.
    rewrite <- app_assoc. f_equal. simpl. symmetry. apply repeat_cons.
Qed.

(** X14: the chairs row shows the queue.  [draw_ui] draws exactly
    [capacity] chairs (none for a capacity below 1): first the customers of
    the queue in queue order, as many as there are chairs, then empty
    chairs.  In a reachable state of a shop with a non-negative capacity
    every waiting customer has a chair on the screen. *)
Theorem chairs_show_queue :
  (forall cap wl,
      chairs_line cap wl =
      map chair_cell (take (Z.to_nat cap) wl)
      ++ repeat empty_chair (Z.to_nat cap - length wl)) /\
  (forall cap wl, length (chairs_line cap wl) = Z.to_nat cap) /\
  (forall cap ct c,
      0 <= cap -> reachable cap ct c ->
      chairs_line (capacity (shop c)) (waiting (shop c)) =
      map chair_cell (waiting (shop c))
      ++ repeat empty_chair
           (Z.to_nat (capacity (shop c)) - length (waiting (shop c)))).
Proof.
  split; [exact chairs_line_eq|]. split.
  - intros cap wl. unfold chairs_line. rewrite length_map, length_seq.
    reflexivity.
  - intros cap ct c Hcap (acts & evs & Hrun).
    destruct (run_invariants _ _ _ _ _ Hrun) as (_ & _ & Hcf).
    destruct (Hcf Hcap) as (Hc & _ & Hle).
    rewrite chairs_line_eq, take_ge; [reflexivity|].
    rewrite Hc. unfold len in Hle. lia.
Qed.

Lemma chairs_show_queue_witness :
  let c := final sched_first_pickup main_init in
  0 <= 5 /\ reachable 5 (8 # 5) c /\
  chairs_line (capacity (shop c)) (waiting (shop c)) =
  map chair_cell (waiting (shop c))
  ++ repeat empty_chair
       (Z.to_nat (capacity (shop c)) - length (waiting (shop c))) /\
  String.concat " " (chairs_line (capacity (shop c)) (waiting (shop c)))
  = "[02] [  ] [  ] [  ] [  ]"%string.
Proof.
  intros c.
  assert (Hcap : 0 <= 5) by lia.
  assert (Hr : reachable 5 (8 # 5) c).
  { exists sched_first_pickup, (trace sched_first_pickup main_init).
    vm_compute. reflexivity. }
  split; [exact Hcap|]. split; [exact Hr|].
  split; [exact (proj2 (proj2 chairs_show_queue) 5 (8 # 5) c Hcap Hr)|].
  vm_compute. reflexivity.
Defined.

(** X15: what the barber line shows.  In a reachable state the start time
    of the haircut is set exactly when there is a current customer, so the
    three-part test of line 157 comes down to the current customer: with
    somebody in the chair the line reports the cut of that customer, and
    with nobody in the chair it reports a sleeping barber, also while the
    status is still cutting after a completion with a non-empty queue. *)
Theorem barber_line_follows_chair (cap : Z) (ct : Q) (c : Config) (now : Q) :
  reachable cap ct c ->
  (current_customer (shop c) = None <-> haircut_start_time (shop c) = None) /\
  (current_customer (shop c) = None ->
   barber_line now (shop c) = "Barber: Zzz (sleeping)"%string) /\
  (forall x, current_customer (shop c) = Some x ->
     exists cut_start,
       haircut_start_time (shop c) = Some cut_start /\
       let prog := progress now cut_start (cut_time (shop c)) in
       barber_line now (shop c) =
       String.concat ""
         ["Barber: Cutting C"; fmt_d true 3 x; "  ["; progress_bar prog; "] ";
          fmt_d false 3 (py_int (prog * 100)); "%"]%string).
Proof.
  intros (acts & evs & Hrun).
  destruct (run_display_inv _ _ _ _ _ Hrun) as (_ & _ & Hclock).
  destruct (run_invariants _ _ _ _ _ Hrun) as (Hst & _ & _).
  destruct Hst as (_ & Hcut & _).
  unfold chair_clock_inv in Hclock. unfold chair_implies_cutting in Hcut.
  split; [exact Hclock|]. split.
  - intros Hnone. unfold barber_line. rewrite Hnone.
    destruct (String.eqb _ _); reflexivity.
  - intros x Hx.
    destruct (haircut_start_time (shop c)) as [t0|] eqn:Ht.
    + exists t0. split; [reflexivity|]. unfold barber_line.
      rewrite Hx, Ht, Hcut by congruence. simpl. reflexivity.
    + assert (current_customer (shop c) = None)
        by (apply Hclock; reflexivity).
      congruence.
Qed.

Lemma barber_line_follows_chair_witness :
  let c := final sched_first_haircut main_init in
  reachable 5 (8 # 5) c /\
  barber_status (shop c) = "cutting"%string /\
  current_customer (shop c) = None /\
  barber_line 4 (shop c) = "Barber: Zzz (sleeping)"%string.
Proof.
  intros c.
  assert (Hr : reachable 5 (8 # 5) c).
  { exists sched_first_haircut, (trace sched_first_haircut main_init).
    vm_compute. reflexivity. }
  assert (Hn : current_customer (shop c) = None) by (vm_compute; reflexivity).
  split; [exact Hr|]. split; [vm_compute; reflexivity|].
  split; [exact Hn|].
  exact (proj1 (proj2 (barber_line_follows_chair 5 (8 # 5) c 4 Hr)) Hn).
Defined.

(** * Number formatting *)

Lemma decimal_parses (n : N) :
  NilEmpty.uint_of_string (decimal n) = Some (N.to_uint n).
Proof.
  unfold decimal, NilZero.string_of_uint.
  destruct (N.to_uint n) eqn:E; try (rewrite <- E; apply NilEmpty.usu).
  destruct n; [discriminate|].
  exfalso. exact (DecimalPos.Unsigned.to_uint_nonnil _ E).
Qed.

Lemma zeros_parse (k : nat) (s : string) :
  option_map N.of_uint (NilEmpty.uint_of_string (String.append (str_times "0" k) s))
  = option_map N.of_uint (NilEmpty.uint_of_string s).
Proof.
  induction k as [|k IH]; [reflexivity|].
  simpl. unfold uint_of_char. simpl.
  destruct (NilEmpty.uint_of_string (String.append (str_times "0" k) s));
    simpl in *; exact IH.
Qed.

Lemma two_digits_small (d : Decimal.uint) :
  (String.length (NilEmpty.string_of_uint d) <= 2)%nat ->
  (N.of_uint d < 100)%N.
Proof.
  intros H.
  split_digit d; simpl in H; try (vm_compute; reflexivity).
  all: split_digit d; simpl in H; try (vm_compute; reflexivity).
  all: split_digit d; simpl in H; try (vm_compute; reflexivity); lia.
Qed.

Lemma decimal_length (n : N) :
  (1 <= String.length (decimal n))%nat /\
  ((String.length (decimal n) <= 2)%nat <-> (n < 100)%N).
Proof.
  split; [|split].
  - unfold decimal, NilZero.string_of_uint.
    destruct (N.to_uint n) eqn:E; simpl; try lia.
  - intros H. rewrite <- (DecimalN.Unsigned.of_to n).
    apply two_digits_small.
    unfold decimal, NilZero.string_of_uint in H.
    destruct (N.to_uint n); simpl in *; try lia; exact H.
  - intros H.
    assert (Hk : (N.to_nat n < 100)%nat) by lia.
    rewrite <- (N2Nat.id n). revert Hk. generalize (N.to_nat n) as k.
    intros k Hk.
    do 100 (destruct k as [|k]; [vm_compute; lia|]). lia.
Qed.

Lemma append_bracket_inj (s t : string) :
  String.append s "]" = String.append t "]" -> s = t.
Proof.
  revert t. induction s as [|a s IH]; intros [|b t] H; simpl in H.
  - reflexivity.
  - destruct t; discriminate H.
  - destruct s; discriminate H.
  - injection H as -> H. f_equal. apply IH. exact H.
Qed.

Lemma fmt_d_length (zero_fill : bool) (width : nat) (z : Z) :
  String.length (fmt_d zero_fill width z) =
  Nat.max width
    ((if (z <? 0)%Z then 1 else 0) + String.length (decimal (Z.abs_N z)))%nat.
Proof.
  unfold fmt_d. destruct (z <? 0), zero_fill; simpl;
    rewrite ?string_length_append, ?str_times_length; simpl; lia.
Qed.

(** X16: number fields never lose digits.  A formatted integer is as wide as
    the requested width or as its sign and digits, whichever is larger, and
    a zero-filled field of a non-negative number reads back as that number.
    So a chair cell is four characters wide exactly for ids up to 99 and
    wider from 100 on, and different ids give different cells. *)
Theorem number_fields_keep_digits :
  (forall zero_fill width z,
      String.length (fmt_d zero_fill width z) =
      Nat.max width
        ((if (z <? 0)%Z then 1 else 0) + String.length (decimal (Z.abs_N z)))%nat) /\
  (forall width z,
      0 <= z ->
      option_map N.of_uint (NilEmpty.uint_of_string (fmt_d true width z))
      = Some (Z.to_N z)) /\
  (forall z, 0 <= z -> (String.length (chair_cell z) = 4%nat <-> z <= 99)) /\
  (forall x y, 0 <= x -> 0 <= y -> chair_cell x = chair_cell y -> x = y).
Proof.
  assert (Hparse : forall width z,
      0 <= z ->
      option_map N.of_uint (NilEmpty.uint_of_string (fmt_d true width z))
      = Some (Z.to_N z)).
  { intros width z Hz. unfold fmt_d.
    destruct (Z.ltb_spec z 0) as [|_]; [lia|].
    simpl. rewrite zeros_parse, decimal_parses. simpl.
    rewrite DecimalN.Unsigned.of_to. f_equal. lia. }
  split; [exact fmt_d_length|]. split; [exact Hparse|]. split.
  - intros z Hz. unfold chair_cell.
    rewrite (string_length_append "["),
      (string_length_append (fmt_d true 2 z)), (fmt_d_length true 2 z).
    destruct (Z.ltb_spec z 0) as [|_]; [lia|]. simpl.
    destruct (decimal_length (Z.abs_N z)) as (H1 & H2). split.
    + intros H. assert (Hl : (String.length (decimal (Z.abs_N z)) <= 2)%nat) by lia.
      apply H2 in Hl. lia.
    + intros H. assert (Hl : (Z.abs_N z < 100)%N) by lia.
      apply H2 in Hl. lia.
  - intros x y Hx Hy Heq. unfold chair_cell in Heq.
    cbn [String.append] in Heq. injection Heq as Heq.
    assert (Hf : fmt_d true 2 x = fmt_d true 2 y)
      by (apply append_bracket_inj; exact Heq).
    pose proof (Hparse 2%nat x Hx) as Px. pose proof (Hparse 2%nat y Hy) as Py.
    rewrite Hf in Px. rewrite Px in Py. injection Py as Py. lia.
Qed.

Lemma number_fields_keep_digits_witness :
  (0 <= 7 /\
   option_map N.of_uint (NilEmpty.uint_of_string (fmt_d true 3 7)) = Some 7%N /\
   fmt_d true 3 7 = "007"%string) /\
  (0 <= 100 /\ ~ 100 <= 99 /\ String.length (chair_cell 100) <> 4%nat /\
   chair_cell 100 = "[100]"%string) /\
  (0 <= 8 /\ 8 <= 99 /\ String.length (chair_cell 8) = 4%nat).
Proof.
  destruct number_fields_keep_digits as (_ & H2 & H3 & _).
  split; [|split].
  - assert (H : 0 <= 7) by lia.
    split; [exact H|]. split; [exact (H2 3%nat 7 H) | reflexivity].
  - assert (H : 0 <= 100) by lia. assert (Hn : ~ 100 <= 99) by lia.
    split; [exact H|]. split; [exact Hn|]. split; [|reflexivity].
    intros Hl. exact (Hn (proj1 (H3 100 H) Hl)).
  - assert (H : 0 <= 8) by lia. assert (Hle : 8 <= 99) by lia.
    split; [exact H|]. split; [exact Hle|]. exact (proj2 (H3 8 H) Hle).
Defined.
